(** * invoice_to_csv.py: a shallow embedding and its verified properties

    The program turns the layout-preserving text of one invoice page into
    an [Asset] and renders it as CSV rows.  Everything it does is Python
    string and list manipulation, so the first part of this file embeds the
    built-in operations the script calls ([str.find], slicing, [str.strip],
    [str.split], [str.splitlines], [str.replace], [str.join], [str.lower],
    [str.capitalize], [list.pop], indexing, [functools.reduce], [print],
    [input]); the second part embeds the functions of the script line by
    line; the third part states and proves the properties.

    Characters.  A Python [str] is a sequence of code points.  The embedding
    uses [list ascii], that is the code points U+0000..U+00FF.  White space,
    line boundaries and lower-casing are those of CPython on that range.
    Title-casing, which [str.capitalize] applies to the first character
    (CPython 3.8 and later), gives the two characters Ss for U+00DF and
    leaves the range for U+00B5 and U+00FF, whose title-case forms are
    U+039C and U+0178: [title_char] has no value there, and the statements
    about a capitalised text leave these two first characters out. *)

From Stdlib Require Import Ascii String List ZArith Lia Bool.
Import ListNotations.
Local Open Scope Z_scope.

Set Implicit Arguments.

(** ** Python values *)

Definition str := list ascii.

(** String literals of the script, as [str]. *)
Definition txt (lit : string) : str := list_ascii_of_string lit.

Definition code (c : ascii) : Z := Z.of_nat (nat_of_ascii c).
Definition chr (z : Z) : ascii := ascii_of_nat (Z.to_nat z).

Definition str_eqb (a b : str) : bool :=
  if list_eq_dec ascii_dec a b then true else false.

Definition len {A} (l : list A) : Z := Z.of_nat (length l).

(** Exceptions the script can meet: all are Python built-ins, the script
    defines no exception class of its own and has no [raise] statement. *)
Inductive exn := IndexError | TypeError | EOFError.

Inductive result (A : Type) :=
| Ok (a : A)
| Raise (e : exn).
Arguments Ok {A} a.
Arguments Raise {A} e.

Definition rbind {A B} (r : result A) (k : A -> result B) : result B :=
  match r with
  | Ok a => k a
  | Raise e => Raise e
  end.

Declare Scope py_scope.
Delimit Scope py_scope with py.
Notation "x <- r ;; k" := (rbind r (fun x => k))
  (at level 61, r at next level, right associativity) : py_scope.
Notation "' ( x , y ) <- r ;; k" := (rbind r (fun p => let '(x, y) := p in k))
  (at level 61, x name, y name, r at next level, right associativity) : py_scope.

(** ** Character classes (CPython, code points below 256) *)

(** [Py_UNICODE_ISSPACE]: 9..13, 28..31, 32, U+0085, U+00A0. *)
Definition isspace (c : ascii) : bool :=
  let n := code c in
  ((9 <=? n) && (n <=? 13)) || ((28 <=? n) && (n <=? 32))
  || (n =? 133) || (n =? 160).

(** [Py_UNICODE_ISLINEBREAK]: LF, VT, FF, CR, FS, GS, RS, U+0085. *)
Definition islinebreak (c : ascii) : bool :=
  let n := code c in
  ((10 <=? n) && (n <=? 13)) || ((28 <=? n) && (n <=? 30)) || (n =? 133).

Definition isupper (c : ascii) : bool :=
  let n := code c in
  ((65 <=? n) && (n <=? 90))
  || ((192 <=? n) && (n <=? 222) && negb (n =? 215)).

Definition islower_cased (c : ascii) : bool :=
  let n := code c in
  ((97 <=? n) && (n <=? 122))
  || ((224 <=? n) && (n <=? 254) && negb (n =? 247)).

Definition lower_char (c : ascii) : ascii :=
  if isupper c then chr (code c + 32) else c.

(** The title-case form of a character ([_PyUnicode_ToTitleFull]): the
    capital of a small letter, Ss for SHARP S (U+00DF), the character
    itself when it has no case.  MICRO SIGN (U+00B5) and Y WITH DIAERESIS
    (U+00FF) have the forms U+039C and U+0178, which are no characters of
    the embedding: [None]. *)
Definition title_char (c : ascii) : option str :=
  let n := code c in
  if (n =? 181) || (n =? 255) then None
  else if n =? 223 then Some (txt "Ss")
  else if islower_cased c then Some [chr (n - 32)]
  else Some [c].

(** ** Built-in string operations *)

(** [s.startswith(p)]. *)
Fixpoint startswith (p t : str) : bool :=
  match p, t with
  | [], _ => true
  | _ :: _, [] => false
  | a :: p', b :: t' => if ascii_dec a b then startswith p' t' else false
  end.

(** [t.find(sub)]: the lowest index at which [sub] occurs, [-1] if none;
    [find_from] carries the index of the position under inspection. *)
Fixpoint find_from (sub t : str) (i : Z) : Z :=
  if startswith sub t then i
  else match t with
       | [] => -1
       | _ :: t' => find_from sub t' (i + 1)
       end.

Definition find (t sub : str) : Z := find_from sub t 0.

(** Slice bounds: a negative bound counts from the end, and both are
    clamped to [0 .. len]. *)
Definition clamp (n i : Z) : Z :=
  if i <? 0 then Z.max 0 (i + n) else Z.min i n.

(** [l[lo:hi]]; an omitted bound is [None]. *)
Definition slice {A} (l : list A) (lo hi : option Z) : list A :=
  let n := len l in
  let a := match lo with Some i => clamp n i | None => 0 end in
  let b := match hi with Some j => clamp n j | None => n end in
  firstn (Z.to_nat (b - a)) (skipn (Z.to_nat a) l).

(** [l[i]]: a negative index counts from the end; out of range raises
    [IndexError]. *)
Definition index {A} (l : list A) (i : Z) : result A :=
  let j := if i <? 0 then i + len l else i in
  if (j <? 0) || (len l <=? j) then Raise IndexError
  else match nth_error l (Z.to_nat j) with
       | Some x => Ok x
       | None => Raise IndexError
       end.

(** [l.pop(i)]: the removed element and the list that is left. *)
Definition pop {A} (l : list A) (i : Z) : result (A * list A) :=
  let j := if i <? 0 then i + len l else i in
  if (j <? 0) || (len l <=? j) then Raise IndexError
  else match nth_error l (Z.to_nat j) with
       | Some x => Ok (x, firstn (Z.to_nat j) l ++ skipn (S (Z.to_nat j)) l)
       | None => Raise IndexError
       end.

Fixpoint dropwhile {A} (p : A -> bool) (l : list A) : list A :=
  match l with
  | [] => []
  | x :: l' => if p x then dropwhile p l' else l
  end.

Definition lstrip (t : str) : str := dropwhile isspace t.
Definition rstrip (t : str) : str := rev (dropwhile isspace (rev t)).

(** [t.strip()] *)
Definition strip (t : str) : str := lstrip (rstrip t).

(** [t.split(sep)] for a non-empty [sep]: the text is scanned from the
    left; wherever [sep] starts the current piece is closed and the
    characters of [sep] are skipped ([skip] counts those still to skip).
    [cur] holds the current piece, reversed. *)
Fixpoint split_go (sep : str) (skip : nat) (cur t : str) : list str :=
  match t with
  | [] => [rev cur]
  | c :: t' =>
      match skip with
      | S k => split_go sep k cur t'
      | O => if startswith sep t
             then rev cur :: split_go sep (length sep - 1) [] t'
             else split_go sep 0 (c :: cur) t'
      end
  end.

Definition split (t sep : str) : list str := split_go sep 0 [] t.

(** [t.replace(old, new)] for a non-empty [old], by the same scan. *)
Fixpoint replace_go (old new : str) (skip : nat) (t : str) : str :=
  match t with
  | [] => []
  | c :: t' =>
      match skip with
      | S k => replace_go old new k t'
      | O => if startswith old t
             then new ++ replace_go old new (length old - 1) t'
             else c :: replace_go old new 0 t'
      end
  end.

Definition replace (t old new : str) : str := replace_go old new 0 t.

(** [t.splitlines()]: pieces between line boundaries, CR LF counting as
    one boundary, and no empty piece after a final boundary. *)
Fixpoint splitlines_go (cur t : str) : list str :=
  match t with
  | [] => match cur with [] => [] | _ :: _ => [rev cur] end
  | c :: t' =>
      if islinebreak c then
        match t' with
        | d :: t'' =>
            if (code c =? 13) && (code d =? 10)
            then rev cur :: splitlines_go [] t''
            else rev cur :: splitlines_go [] t'
        | [] => rev cur :: splitlines_go [] t'
        end
      else splitlines_go (c :: cur) t'
  end.

Definition splitlines (t : str) : list str := splitlines_go [] t.

(** [sep.join(l)] *)
Fixpoint join (sep : str) (l : list str) : str :=
  match l with
  | [] => []
  | [x] => x
  | x :: l' => x ++ sep ++ join sep l'
  end.

(** [t.lower()] *)
Definition lower (t : str) : str := map lower_char t.

(** [t.capitalize()]: first character title-cased, the rest lower-cased.
    Where the title-case form is no character of the embedding (see
    [title_char]) the first character is kept: on these two first
    characters, and only there, the text differs from Python's. *)
Definition capitalize (t : str) : str :=
  match t with
  | [] => []
  | c :: t' =>
      match title_char c with
      | Some first => first ++ lower t'
      | None => c :: lower t'
      end
  end.

(** [functools.reduce(lambda x, y: x + y, l)] without initial value:
    [TypeError] on an empty sequence. *)
Definition reduce_add {A} (l : list (list A)) : result (list A) :=
  match l with
  | [] => Raise TypeError
  | x :: l' => Ok (fold_left (fun a b => a ++ b) l' x)
  end.

(** ** Standard input and output

    [print] and [input] act on the process's standard streams: [stdin] is
    the list of lines still to be read, [stdout] the text written so far.
    An exception leaves the streams as they were when it was raised. *)

Record World := { stdin : list str; stdout : str }.

Definition IO (A : Type) : Type := World -> result A * World.

Definition ret {A} (a : A) : IO A := fun w => (Ok a, w).

Definition bind {A B} (m : IO A) (k : A -> IO B) : IO B :=
  fun w => match m w with
           | (Ok a, w') => k a w'
           | (Raise e, w') => (Raise e, w')
           end.

Definition lift {A} (r : result A) : IO A := fun w => (r, w).

Declare Scope io_scope.
Delimit Scope io_scope with io.
Notation "x <~ m ;; k" := (bind m (fun x => k))
  (at level 61, m at next level, right associativity) : io_scope.
Notation "m ;;; k" := (bind m (fun _ => k))
  (at level 61, right associativity) : io_scope.

Definition LF : ascii := chr 10.

Definition write (t : str) : IO unit :=
  fun w => (Ok tt, {| stdin := stdin w; stdout := stdout w ++ t |}).

(** [print(a, b)]: the arguments separated by one space, then a newline. *)
Definition print2 (a b : str) : IO unit := write (a ++ txt " " ++ b ++ [LF]).

(** [input(prompt)]: writes the prompt, reads one line; [EOFError] at the
    end of the input. *)
Definition input (prompt : str) : IO str :=
  fun w =>
    let w' := {| stdin := stdin w; stdout := stdout w ++ prompt |} in
    match stdin w with
    | [] => (Raise EOFError, w')
    | l :: rest => (Ok l, {| stdin := rest; stdout := stdout w' |})
    end.

(** ** The script *)

Definition CSV_HEADER : str :=
  txt "Item Name,Category,Location,Purchase Date,Purchase Cost,Model Name,Model Number,Serial Number,Order Number,Requestable,Last Audit" ++ [LF].

Definition COMMON_CATEGORIES : list str :=
  [ txt "Laptop"; txt "Desktop"; txt "Access Point"; txt "Smartphone";
    txt "Router"; txt "Switch" ].

(** [class Asset]: the attributes [__init__] sets. *)
Record Asset := {
  model_no : str;
  name : str;
  model : str;
  price : str;
  serial_nos : list str;
  location : str;
  date : str;
  order_no : str;
  category : str;
  requestable : str;
  last_audit_date : str
}.

(** [Asset.__init__] *)
Definition Asset_init (model_no name model price : str) (serial_nos : list str)
    (date order_no category : str) : Asset :=
  {| model_no := model_no; name := name; model := model; price := price;
     serial_nos := serial_nos; location := txt "Naples Office"; date := date;
     order_no := order_no; category := category; requestable := txt "true";
     last_audit_date := date |}.

(** One pass of the loop body of [Asset.to_string]: the row of one serial
    number, newline included. *)
Definition asset_str (self : Asset) (serial_no : str) : str :=
  let asset_str := name self ++ txt "," ++ category self ++ txt ","
                   ++ location self ++ txt "," ++ date self in
  let asset_str := asset_str ++ txt "," ++ price self ++ txt ","
                   ++ model self ++ txt "," ++ model_no self in
  let asset_str := asset_str ++ txt "," ++ serial_no ++ txt ","
                   ++ order_no self ++ txt "," ++ requestable self in
  asset_str ++ txt "," ++ last_audit_date self ++ [LF].

(** [Asset.to_string]: the loop over [self.serial_nos] accumulates in
    [assets_str]. *)
Definition to_string (self : Asset) : str :=
  fold_left (fun assets_str serial_no => assets_str ++ asset_str self serial_no)
            (serial_nos self) [].

(** [check_for_common_categories]: the loop overwrites [found_category] at
    every category found in the lower-cased name. *)
Definition check_for_common_categories (name : str) : option str :=
  fold_left
    (fun found_category category =>
       if 0 <=? find (lower name) (lower category)
       then Some category else found_category)
    COMMON_CATEGORIES None.

(** [get_category(model_no, name, model)] *)
Definition get_category (model_no name model : str) : IO str :=
  match check_for_common_categories name with
  | Some category => ret category
  | None =>
      (print2 (LF :: txt "Model Number:") model_no ;;;
       print2 (txt "Model:") model ;;;
       print2 (txt "Name:") name ;;;
       answer <~ input (txt "What is the category for this item? ") ;;
       ret (capitalize answer))%io
  end.

(** [get_next_item(text, word_before)] *)
Definition get_next_item (text word_before : str) : result str :=
  (let rest := strip (slice text (Some (find text word_before + len word_before)) None) in
   first <- index (split rest (txt " ")) 0 ;;
   index (split first [LF]) 0)%py.

(** Lines 112-117 of [parse_pdf]: the item block between the anchors. *)
Definition START_STRING : str := txt "Billable  Products & Other Charges".
Definition END_STRING : str := txt "Total".

Definition locate_item (page_text : str) : str :=
  let start_i := find page_text START_STRING + len START_STRING in
  let end_i := find page_text END_STRING in
  strip (slice page_text (Some start_i) (Some end_i)).

(** Lines 124-128: the tokens of the structured part of the block. *)
Definition nonempty (x : str) : bool := negb (str_eqb x []).

Definition info_lines (info : str) : list (list str) :=
  map splitlines (filter nonempty (split info (txt "  "))).

(** Lines 134-136: the price without thousands separators and currency
    sign. *)
Definition clean_price (price : str) : str :=
  let price := replace price (txt ",") [] in
  let price := replace price (txt "$") [] in
  strip price.

(** The fields lines 118-143 extract from the item block. *)
Record Fields := {
  f_model_no : str;
  f_name : str;
  f_model : str;
  f_price : str;
  f_serial_nos : list str
}.

(** Lines 129-138: the three [pop(1)] calls.  The list keeps its first
    token; the second of the three removed tokens is the price. *)
Definition take_price (info_list : list str) : result (str * list str) :=
  ('(_, info_list) <- pop info_list 1 ;;
   '(price, info_list) <- pop info_list 1 ;;
   let price := clean_price price in
   '(_, info_list) <- pop info_list 1 ;;
   Ok (price, info_list))%py.

(** Lines 118-143 of [parse_pdf]. *)
Definition extract_fields (item : str) : result Fields :=
  (model_no <- index (split item (txt ": ")) 0 ;;
   info <- index (split item (txt ": ")) 1 ;;
   let info := slice info None (Some (find info (txt "Serial"))) in
   info_list <- reduce_add (info_lines info) ;;
   '(price, info_list) <- take_price info_list ;;
   head <- index info_list 0 ;;
   model <- index (split head (txt ", ")) 0 ;;
   let name := replace (join (txt " ") info_list) (txt ",") [] in
   last <- index (split item (txt ": ")) (-1) ;;
   let serial_nos := map strip (split last (txt ",")) in
   Ok {| f_model_no := model_no; f_name := name; f_model := model;
         f_price := price; f_serial_nos := serial_nos |})%py.

(** Lines 147-149: from MM-DD-YYYY to YYYY-MM-DD. *)
Definition reformat_date (date : str) : result str :=
  (let date := replace date (txt "/") (txt "-") in
   sep <- index date 5 ;;
   Ok (slice date (Some 6) None ++ [sep] ++ slice date None (Some 5)))%py.

(** [parse_pdf] *)
Definition parse_pdf (page_text : str) : IO Asset :=
  (let item := locate_item page_text in
   f <~ lift (extract_fields item) ;;
   date <~ lift (date <- get_next_item page_text (txt "BCB Homes") ;;
                 reformat_date date)%py ;;
   order_no <~ lift (get_next_item page_text (txt "Service Request Number")) ;;
   (* the call passes (model_no, model, name) *)
   category <~ get_category (f_model_no f) (f_model f) (f_name f) ;;
   ret (Asset_init (f_model_no f) (f_name f) (f_model f) (f_price f)
                   (f_serial_nos f) date order_no category))%io.

(** ** Notions the statements use *)

(** [sub] occurs in [t]. *)
Definition occurs (sub t : str) : Prop :=
  exists pre post, t = pre ++ sub ++ post.

Definition price_char (c : ascii) : Prop := c <> ","%char /\ c <> "$"%char.

Definition isdigit (c : ascii) : bool := (48 <=? code c) && (code c <=? 57).

(** A field value without comma and without newline. *)
Definition plain (f : str) : bool :=
  forallb (fun c => negb (if ascii_dec c ","%char then true else false)
                    && negb (if ascii_dec c LF then true else false)) f.

Definition plain_asset (a : Asset) : bool :=
  plain (name a) && plain (category a) && plain (location a)
  && plain (date a) && plain (price a) && plain (model a)
  && plain (model_no a) && plain (order_no a) && plain (requestable a)
  && plain (last_audit_date a) && forallb plain (serial_nos a).

(** The values of one row, in the order in which the loop body of
    [to_string] concatenates them. *)
Definition columns (self : Asset) (serial_no : str) : list str :=
  [ name self; category self; location self; date self; price self;
    model self; model_no self; serial_no; order_no self; requestable self;
    last_audit_date self ].

(** The rows of a CSV text: its pieces between newlines, the text after
    the last newline left out. *)
Definition rows_of (csv : str) : list str := removelast (split csv [LF]).

(** [category] occurs in [name] when upper and lower case are not told
    apart. *)
Definition ci_occurs (category name : str) : Prop :=
  exists pre mid post,
    name = pre ++ mid ++ post /\ lower mid = lower category.

(** The test of line 189. *)
Definition matches (name category : str) : bool :=
  0 <=? find (lower name) (lower category).

(** What the three [print] calls and the prompt of [get_category] write. *)
Definition category_prompt (model_no name model : str) : str :=
  (LF :: txt "Model Number:") ++ txt " " ++ model_no ++ [LF]
  ++ txt "Model:" ++ txt " " ++ model ++ [LF]
  ++ txt "Name:" ++ txt " " ++ name ++ [LF]
  ++ txt "What is the category for this item? ".

(** Tokens of the structured part of an item block: what line 128 leaves
    in [info_list], when there is any. *)
Definition item_tokens (info : str) : list str :=
  concat (info_lines (slice info None (Some (find info (txt "Serial"))))).

(** ** Sample inputs *)

Definition sample_asset : Asset :=
  Asset_init (txt "MN-100") (txt "ModelX Widget Pro") (txt "ModelX")
             (txt "500.00") [txt "SN1"; txt "SN2"; txt "SN1"]
             (txt "2024-03-14") (txt "531363") (txt "Laptop").

Definition two_token_block : str :=
  txt "MN-100: ModelX  2 Serial Numbers: SN1".

Definition four_token_block : str :=
  txt "MN-100: ModelX, Widget Pro  2  $500.00  $1,000.00  Serial Numbers: SN1, SN2".

(** The block of the specification's example: quantity first. *)
Definition quantity_first_block : str :=
  txt "MN-100: 2  $500.00  $1,000.00  ModelX, Widget Pro Serial Numbers: SN1, SN2".

(** A page in the layout the script expects. *)
Definition laptop_page : str :=
  txt "BCB Homes  03/14/2024" ++ [LF]
  ++ txt "Service Request Number   531363" ++ [LF]
  ++ txt "Billable  Products & Other Charges" ++ [LF]
  ++ txt "MN-100: Latitude 5540, Dell Laptop  2  $500.00  $1,000.00" ++ [LF]
  ++ txt "Serial Numbers: SN1, SN2" ++ [LF]
  ++ txt "Total  $1,000.00".

(** A page with one space, not two, in the heading of the item block: the
    START anchor does not occur. *)
Definition page_without_start : str :=
  txt "BCB Homes  03/14/2024" ++ [LF]
  ++ txt "Service Request Number   531363" ++ [LF]
  ++ txt "Billable Products & Other Charges" ++ [LF]
  ++ txt "MN-100: Laptop X1, Lenovo  2  $500.00  $1,000.00" ++ [LF]
  ++ txt "Serial Numbers: SN1, SN2" ++ [LF]
  ++ txt "Total  $1,000.00".

(** The page of [page_without_start] with its heading as expected and
    without the line of the total: the END anchor does not occur. *)
Definition page_without_end : str :=
  txt "BCB Homes  03/14/2024" ++ [LF]
  ++ txt "Service Request Number   531363" ++ [LF]
  ++ txt "Billable  Products & Other Charges" ++ [LF]
  ++ txt "MN-100: Laptop X1, Lenovo  2  $500.00  $1,000.00" ++ [LF]
  ++ txt "Serial Numbers: SN1, SN2".

(** ** The rest of the script: file names, flags and the batch *)

Definition LINE_BREAK : str :=
  LF :: txt "--------------------------------------------------------------------------------" ++ [LF].

(** [print(a)] and [print(a, b, c, d)]. *)
Definition print1 (a : str) : IO unit := write (a ++ [LF]).

Definition print4 (a b c d : str) : IO unit :=
  write (a ++ txt " " ++ b ++ txt " " ++ c ++ txt " " ++ d ++ [LF]).

(** [check_file_types]: the loop appends every name to one of the two
    lists, by its last four characters. *)
Definition check_file_types (file_names : list str) : list str * list str :=
  fold_left
    (fun (acc : list str * list str) name =>
       let '(pdf_names, invalid_names) := acc in
       if str_eqb (slice name (Some (-4)) None) (txt ".pdf")
       then (pdf_names ++ [name], invalid_names)
       else (pdf_names, invalid_names ++ [name]))
    file_names ([], []).

(** [get_pdf_names]; [argv] is [sys.argv]. *)
Definition get_pdf_names (argv : list str) : IO (list str * list str) :=
  if 1 <? len argv
  then ret (check_file_types (slice argv (Some 1) None))
  else
    (input_names <~
       input (txt "Input the name (or names, seperated by spaces) of an invoice pdf: ") ;;
     ret (check_file_types (split input_names (txt " "))))%io.

(** [range(a, b)] for [0 <= a]. *)
Definition range (a b : Z) : list Z :=
  map Z.of_nat (seq (Z.to_nat a) (Z.to_nat (b - a))).

(** The first loop of [check_for_flags]: [indices] are the values of [i]
    still to come, fixed when the loop starts; [argv] is [sys.argv], which
    [pop] shortens while the loop runs. *)
Fixpoint flags_loop (indices : list Z) (argv flags : list str)
  : result (list str * list str) :=
  match indices with
  | [] => Ok (argv, flags)
  | i :: indices' =>
      (arg <- index argv i ;;
       first <- index arg 0 ;;
       if ascii_dec first "-"%char
       then '(flag, argv) <- pop argv i ;;
            flags_loop indices' argv (flags ++ [flag])
       else flags_loop indices' argv flags)%py
  end.

(** [print_help] *)
Definition print_help : IO unit :=
  print1 (txt "Usage: python invoice_to_csv.py [optional: invoice filenames, space seperated]").

(** How a function that may call [exit()] ends: [exit()] raises
    [SystemExit], which nothing in the script catches. *)
Inductive outcome (A : Type) :=
| Returns (a : A)
| Raises (e : exn)
| Exits.
Arguments Returns {A} a.
Arguments Raises {A} e.
Arguments Exits {A}.

(** The second loop of [check_for_flags]. *)
Fixpoint help_loop (flags : list str) (w : World) : outcome unit * World :=
  match flags with
  | [] => (Returns tt, w)
  | flag :: flags' =>
      if str_eqb flag (txt "-h") || str_eqb flag (txt "--help")
      then (Exits, snd (print_help w))
      else help_loop flags' w
  end.

(** [check_for_flags]; it returns [sys.argv] as the loop leaves it. *)
Definition check_for_flags (argv : list str) (w : World)
  : outcome (list str) * World :=
  let looped :=
    if 1 <? len argv
    then flags_loop (range 1 (len argv)) argv []
    else Ok (argv, [])
  in
  match looped with
  | Raise e => (Raises e, w)
  | Ok (argv, flags) =>
      match help_loop flags w with
      | (Returns _, w') => (Returns argv, w')
      | (Raises e, w') => (Raises e, w')
      | (Exits, w') => (Exits, w')
      end
  end.

(** What [PdfReader(pdf_name).pages[0].extract_text(extraction_mode="layout")]
    gives: the text of the first page, or [FileNotFoundError] when there is
    no such file. *)
Inductive reading :=
| Page (page_text : str)
| FileNotFound.

(** The console and the text written to the CSV file so far. *)
Record Session := { console : World; csv : str }.

Section Batch.

(** The documents on disk. *)
Variable read_first_page : str -> reading.

(** The body of the loop of [process_pdfs] (lines 253-261): only
    [FileNotFoundError] is caught. *)
Definition process_one (pdf_name : str) (s : Session) : result unit * Session :=
  let w := snd (print2 (txt "Processing") pdf_name (console s)) in
  match read_first_page pdf_name with
  | FileNotFound =>
      let w := snd (print2 pdf_name (txt "not found." ++ [LF]) w) in
      (Ok tt, {| console := w; csv := csv s |})
  | Page page_text =>
      match parse_pdf page_text w with
      | (Raise e, w) => (Raise e, {| console := w; csv := csv s |})
      | (Ok asset, w) =>
          let written := csv s ++ to_string asset in
          let w := snd (print4 (txt "Finished processing") pdf_name
                               [LF] LINE_BREAK w) in
          (Ok tt, {| console := w; csv := written |})
      end
  end.

(** The loop of [process_pdfs] (lines 252-261). *)
Fixpoint process_loop (pdf_names : list str) (s : Session)
  : result unit * Session :=
  match pdf_names with
  | [] => (Ok tt, s)
  | pdf_name :: pdf_names' =>
      match process_one pdf_name s with
      | (Ok _, s') => process_loop pdf_names' s'
      | (Raise e, s') => (Raise e, s')
      end
  end.

End Batch.

(** [takewhile p l]: the longest prefix of [l] whose elements satisfy
    [p]. *)
Fixpoint takewhile {A} (p : A -> bool) (l : list A) : list A :=
  match l with
  | [] => []
  | x :: l' => if p x then x :: takewhile p l' else []
  end.

(** Neither a space nor a newline. *)
Definition in_token (c : ascii) : bool :=
  negb (if ascii_dec c " "%char then true else false)
  && negb (if ascii_dec c LF then true else false).

(** The first character of an argument is a hyphen. *)
Definition dashed (arg : str) : bool :=
  match arg with
  | c :: _ => if ascii_dec c "-"%char then true else false
  | [] => false
  end.

(** An argument that has a first character other than a hyphen. *)
Definition undashed (arg : str) : bool :=
  match arg with
  | c :: _ => if ascii_dec c "-"%char then false else true
  | [] => false
  end.

(** As the claim on capitalising words it, from a table of letters and
    not from code-point arithmetic: the letters of the embedding in pairs,
    capital first.  A-Z go with a-z, and the accented capitals U+00C0 to
    U+00DE (without the multiplication sign U+00D7) with the small letters
    U+00E0 to U+00FE (without the division sign U+00F7). *)
Definition letter_pairs : list (ascii * ascii) :=
  combine (txt "ABCDEFGHIJKLMNOPQRSTUVWXYZ") (txt "abcdefghijklmnopqrstuvwxyz")
  ++ map (fun n => (ascii_of_nat n, ascii_of_nat (n + 32)))
         (seq 192 23 ++ seq 216 7).

(** A character upper-cased as [str.capitalize] does it for a first
    character: the capital of its pair for a small letter; Ss for SHARP S;
    nothing for MICRO SIGN and Y WITH DIAERESIS, whose capitals are no
    characters of the embedding; the character itself otherwise. *)
Definition uppercased (c : ascii) : option str :=
  match List.find (fun p => if ascii_dec (snd p) c then true else false)
                  letter_pairs with
  | Some (capital, _) => Some [capital]
  | None =>
      if ascii_dec c (ascii_of_nat 223) then Some (txt "Ss")
      else if ascii_dec c (ascii_of_nat 181) then None
      else if ascii_dec c (ascii_of_nat 255) then None
      else Some [c]
  end.

(** A character lower-cased: the small letter of its pair for a capital,
    the character itself otherwise. *)
Definition lowercased (c : ascii) : ascii :=
  match List.find (fun p => if ascii_dec (fst p) c then true else false)
                  letter_pairs with
  | Some (_, small) => small
  | None => c
  end.

(** The name ends in [.pdf]. *)
Definition ends_with_pdf (name : str) : Prop :=
  exists stem, name = stem ++ txt ".pdf".

(** The test of line 92. *)
Definition pdf_suffix (name : str) : bool :=
  str_eqb (slice name (Some (-4)) None) (txt ".pdf").

(** Commas in the values of a row. *)
Definition commas (values : list str) : nat :=
  list_sum (map (fun v => count_occ ascii_dec v ","%char) values).

(** No value of a row of the asset holds a newline. *)
Definition one_line_values (a : Asset) : Prop :=
  forall sn, In sn (serial_nos a) ->
    Forall (Forall (fun c => c <> LF)) (columns a sn).

(** An asset with a comma in its name. *)
Definition comma_asset : Asset :=
  Asset_init (txt "MN-100") (txt "Widget, Pro") (txt "ModelX")
             (txt "500.00") [txt "SN1"] (txt "2024-03-14") (txt "531363")
             (txt "Laptop").

(** The test of line 276. *)
Definition is_help (flag : str) : bool :=
  str_eqb flag (txt "-h") || str_eqb flag (txt "--help").

(** What [print_help] prints. *)
Definition usage_line : str :=
  txt "Usage: python invoice_to_csv.py [optional: invoice filenames, space seperated]"
  ++ [LF].

(** The prompt of [get_pdf_names]. *)
Definition names_prompt : str :=
  txt "Input the name (or names, seperated by spaces) of an invoice pdf: ".

(** A disk with two documents: [a.pdf] holds [laptop_page], [b.pdf] a page
    without item block; no other file exists. *)
Definition sample_disk (pdf_name : str) : reading :=
  if str_eqb pdf_name (txt "a.pdf") then Page laptop_page
  else if str_eqb pdf_name (txt "b.pdf") then Page (txt "BCB Homes")
  else FileNotFound.

(** The start of a batch: the header is written, two lines wait on the
    input. *)
Definition fresh_session : Session :=
  {| console := {| stdin := [txt "tablet"; txt "phone"]; stdout := [] |};
     csv := CSV_HEADER |}.

(** The asset of [laptop_page] under a category. *)
Definition laptop_asset (category : str) : Asset :=
  Asset_init (txt "MN-100") (txt "Latitude 5540 Dell Laptop")
             (txt "Latitude 5540") (txt "500.00") [txt "SN1"; txt "SN2"]
             (txt "2024-03-14") (txt "531363") category.

(** * Properties of the built-in operations *)

Section BuiltinFacts.

Lemma startswith_iff (p t : str) :
  startswith p t = true <-> exists r, t = p ++ r.
Proof.
  revert t; induction p as [|a p IH]; intros t; simpl.
  - split; [intros _; now exists t | reflexivity].
  - destruct t as [|b t].
    + split; [discriminate | intros [r Hr]; discriminate].
    + destruct (ascii_dec a b) as [->|Hab].
      * rewrite IH. split; intros [r Hr]; exists r.
        -- now rewrite Hr.
        -- now injection Hr.
      * split; [discriminate | intros [r Hr]; injection Hr; congruence].
Qed.

Lemma find_from_range (sub t : str) (i : Z) :
  find_from sub t i = -1 \/
  (i <= find_from sub t i <= i + len t - len sub).
Proof.
  revert i; induction t as [|c t IH]; intros i; simpl.
  - destruct (startswith sub []) eqn:E; [right | now left].
    apply startswith_iff in E as [r Hr].
    destruct sub; [unfold len; simpl; lia | discriminate].
  - destruct (startswith sub (c :: t)) eqn:E.
    + right. apply startswith_iff in E as [r Hr].
      assert (length (c :: t) = length sub + length r)%nat
        by (rewrite Hr; apply length_app).
      unfold len. lia.
    + destruct (IH (i + 1)) as [H|H]; [now left | right].
      unfold len in *. simpl length. lia.
Qed.

Lemma find_from_shift (sub t : str) (i : Z) :
  find_from sub t i =
  if find_from sub t 0 <? 0 then -1 else i + find_from sub t 0.
Proof.
  revert i; induction t as [|c t IH]; intros i; simpl.
  - destruct (startswith sub []); simpl; lia.
  - destruct (startswith sub (c :: t)); simpl; [lia|].
    rewrite (IH (i + 1)), (IH 1).
    destruct (find_from_range sub t 0) as [H|H].
    + rewrite H. reflexivity.
    + destruct (find_from sub t 0 <? 0) eqn:E; [lia|].
      destruct (1 + find_from sub t 0 <? 0) eqn:E'; lia.
Qed.

Lemma find_from_found (sub t : str) (i : Z) :
  0 <= i -> (0 <= find_from sub t i <-> occurs sub t).
Proof.
  revert i; induction t as [|c t IH]; intros i Hi; simpl.
  - destruct (startswith sub []) eqn:E.
    + split; [intros _ | lia].
      apply startswith_iff in E as [r Hr]. now exists [], r.
    + split; [lia|]. intros (pre & post & H). exfalso.
      destruct pre; [|discriminate]. simpl in H.
      assert (startswith sub [] = true) by (apply startswith_iff; eauto).
      congruence.
  - destruct (startswith sub (c :: t)) eqn:E.
    + split; [intros _ | lia].
      apply startswith_iff in E as [r Hr]. now exists [], r.
    + rewrite (IH (i + 1)) by lia. split.
      * intros (pre & post & H). exists (c :: pre), post. now rewrite H.
      * intros (pre & post & H). destruct pre as [|d pre].
        -- simpl in H.
           assert (startswith sub (c :: t) = true)
             by (apply startswith_iff; eauto).
           congruence.
        -- injection H as _ H. now exists pre, post.
Qed.

Lemma find_range (t sub : str) :
  find t sub = -1 \/ 0 <= find t sub <= len t - len sub.
Proof.
  unfold find. destruct (find_from_range sub t 0); [now left | right; lia].
Qed.

Lemma find_found (t sub : str) : 0 <= find t sub <-> occurs sub t.
Proof. unfold find. now apply find_from_found. Qed.

Lemma find_absent (t sub : str) : find t sub = -1 <-> ~ occurs sub t.
Proof.
  rewrite <- find_found. destruct (find_range t sub); lia.
Qed.

(** *** Lists *)

Lemma len_nonneg {A} (l : list A) : 0 <= len l.
Proof. unfold len. lia. Qed.

Lemma index_nonneg {A} (l : list A) (i : Z) :
  0 <= i ->
  index l i = match nth_error l (Z.to_nat i) with
              | Some x => Ok x
              | None => Raise IndexError
              end.
Proof.
  intros Hi. unfold index.
  destruct (i <? 0) eqn:E; [lia|].
  destruct ((i <? 0) || (len l <=? i)) eqn:F; [|reflexivity].
  rewrite E in F. simpl in F. apply Z.leb_le in F.
  destruct (nth_error l (Z.to_nat i)) eqn:N; [|reflexivity].
  assert (Z.to_nat i < length l)%nat
    by (apply nth_error_Some; congruence).
  unfold len in F. lia.
Qed.

Lemma index_0 {A} (x : A) (l : list A) : index (x :: l) 0 = Ok x.
Proof. now rewrite index_nonneg by lia. Qed.

Lemma index_last {A} (l : list A) :
  l <> [] -> exists x, index l (-1) = Ok x.
Proof.
  intros H. unfold index. cbv zeta. change (-1 <? 0) with true. cbv iota.
  assert (0 < length l)%nat by (destruct l; [congruence | simpl; lia]).
  replace ((-1 + len l <? 0) || (len l <=? -1 + len l)) with false.
  - destruct (nth_error l (Z.to_nat (-1 + len l))) eqn:E;
      [eexists; reflexivity|].
    apply nth_error_None in E. unfold len in E. lia.
  - symmetry. apply orb_false_iff. unfold len.
    split; [apply Z.ltb_ge | apply Z.leb_gt]; lia.
Qed.

Lemma pop_nonneg {A} (l : list A) (i : Z) :
  0 <= i ->
  pop l i = match nth_error l (Z.to_nat i) with
            | Some x =>
                Ok (x, firstn (Z.to_nat i) l ++ skipn (S (Z.to_nat i)) l)
            | None => Raise IndexError
            end.
Proof.
  intros Hi. unfold pop.
  destruct (i <? 0) eqn:E; [lia|].
  destruct ((i <? 0) || (len l <=? i)) eqn:F; [|reflexivity].
  rewrite E in F. simpl in F. apply Z.leb_le in F.
  destruct (nth_error l (Z.to_nat i)) eqn:N; [|reflexivity].
  assert (Z.to_nat i < length l)%nat
    by (apply nth_error_Some; congruence).
  unfold len in F. lia.
Qed.

Lemma pop_1 {A} (x y : A) (l : list A) : pop (x :: y :: l) 1 = Ok (y, x :: l).
Proof. now rewrite pop_nonneg by lia. Qed.

Lemma fold_left_app_concat {A} (l : list (list A)) (x : list A) :
  fold_left (fun a b => a ++ b) l x = x ++ concat l.
Proof.
  revert x; induction l as [|y l IH]; intros x; simpl.
  - now rewrite app_nil_r.
  - now rewrite IH, app_assoc.
Qed.

Lemma reduce_add_concat {A} (l : list (list A)) :
  l <> [] -> reduce_add l = Ok (concat l).
Proof.
  destruct l as [|x l]; [congruence | intros _].
  simpl. now rewrite fold_left_app_concat.
Qed.

(** *** Slices *)

Lemma slice_from {A} (l : list A) (a : Z) :
  0 <= a -> slice l (Some a) None = skipn (Z.to_nat a) l.
Proof.
  intros Ha. unfold slice, clamp. destruct (a <? 0) eqn:Ea; [lia|].
  assert (Hn : len l = Z.of_nat (length l)) by reflexivity.
  destruct (Z.le_gt_cases a (len l)) as [Hal|Hal].
  - rewrite (Z.min_l a) by lia. apply firstn_all2. rewrite length_skipn. lia.
  - rewrite (Z.min_r a) by lia. rewrite !skipn_all2 by lia. apply firstn_nil.
Qed.

Lemma slice_to {A} (l : list A) (b : Z) :
  0 <= b -> slice l None (Some b) = firstn (Z.to_nat b) l.
Proof.
  intros Hb. unfold slice, clamp. destruct (b <? 0) eqn:Eb; [lia|].
  assert (Hn : len l = Z.of_nat (length l)) by reflexivity.
  simpl skipn. rewrite Z.sub_0_r.
  destruct (Z.le_gt_cases b (len l)) as [Hbl|Hbl].
  - now rewrite (Z.min_l b) by lia.
  - rewrite (Z.min_r b) by lia. rewrite !firstn_all2; trivial; lia.
Qed.

(** *** strip *)

Lemma dropwhile_suffix {A} (p : A -> bool) (l : list A) :
  exists w, l = w ++ dropwhile p l.
Proof.
  induction l as [|x l [w Hw]]; simpl.
  - now exists [].
  - destruct (p x); [exists (x :: w); simpl; congruence | now exists []].
Qed.

Lemma dropwhile_idem {A} (p : A -> bool) (l : list A) :
  dropwhile p (dropwhile p l) = dropwhile p l.
Proof.
  induction l as [|x l IH]; simpl; trivial.
  destruct (p x) eqn:E; trivial. simpl. now rewrite E.
Qed.

Lemma dropwhile_head {A} (p : A -> bool) (x : A) (l : list A) :
  p x = false -> dropwhile p (x :: l) = x :: l.
Proof. intros H. simpl. now rewrite H. Qed.

Lemma dropwhile_fixed {A} (p : A -> bool) (l : list A) :
  dropwhile p l = l ->
  l = [] \/ exists x l', l = x :: l' /\ p x = false.
Proof.
  intros H. destruct l as [|x l]; [now left | right].
  simpl in H. destruct (p x) eqn:E; [|eauto].
  exfalso. destruct (dropwhile_suffix p l) as [w Hw].
  rewrite H in Hw. apply (f_equal (@length A)) in Hw.
  rewrite length_app in Hw. simpl in Hw. lia.
Qed.

Lemma dropwhile_Forall {A} (P : A -> Prop) (p : A -> bool) (l : list A) :
  Forall P l -> Forall P (dropwhile p l).
Proof.
  intros H. destruct (dropwhile_suffix p l) as [w Hw].
  rewrite Hw in H. now apply Forall_app in H.
Qed.

(** What [rstrip] returns ends in no white space, and [lstrip] keeps it
    so. *)
Lemma rstrip_lstrip_rstrip (t : str) :
  rstrip (lstrip (rstrip t)) = lstrip (rstrip t).
Proof.
  unfold rstrip at 1.
  assert (E : dropwhile isspace (rev (rstrip t)) = rev (rstrip t))
    by (unfold rstrip; rewrite rev_involutive; apply dropwhile_idem).
  destruct (dropwhile_suffix isspace (rstrip t)) as [w Hw].
  fold (lstrip (rstrip t)) in Hw.
  destruct (lstrip (rstrip t)) as [|x u] eqn:L; [reflexivity|].
  rewrite Hw, rev_app_distr in E.
  destruct (rev (x :: u)) as [|y v] eqn:R.
  - apply (f_equal (@length ascii)) in R. rewrite length_rev in R.
    discriminate.
  - apply dropwhile_fixed in E as [E|(y' & v' & E & Hy)]; [discriminate|].
    injection E as <- _. rewrite dropwhile_head by assumption.
    rewrite <- R. apply rev_involutive.
Qed.

Lemma strip_idem (t : str) : strip (strip t) = strip t.
Proof.
  unfold strip. rewrite rstrip_lstrip_rstrip.
  unfold lstrip. apply dropwhile_idem.
Qed.

Lemma strip_Forall (P : ascii -> Prop) (t : str) :
  Forall P t -> Forall P (strip t).
Proof.
  intros H. unfold strip, lstrip, rstrip.
  apply dropwhile_Forall, Forall_rev, dropwhile_Forall, Forall_rev, H.
Qed.

(** *** replace, for one character *)

Lemma startswith_char (c x : ascii) (t : str) :
  startswith [c] (x :: t) = if ascii_dec c x then true else false.
Proof. simpl. now destruct (ascii_dec c x). Qed.

Lemma replace_char_del (c : ascii) (t : str) :
  replace t [c] [] =
  filter (fun x => if ascii_dec c x then false else true) t.
Proof.
  unfold replace. induction t as [|x t IH]; [reflexivity|].
  cbn [replace_go]. rewrite startswith_char.
  cbn [filter]. destruct (ascii_dec c x); simpl; now rewrite IH.
Qed.

Lemma replace_char_char (c d : ascii) (t : str) :
  replace t [c] [d] = map (fun x => if ascii_dec c x then d else x) t.
Proof.
  unfold replace. induction t as [|x t IH]; [reflexivity|].
  cbn [replace_go]. rewrite startswith_char.
  cbn [map]. destruct (ascii_dec c x); simpl; now rewrite IH.
Qed.

Lemma replace_char_absent (c : ascii) (new t : str) :
  Forall (fun x => x <> c) t -> replace t [c] new = t.
Proof.
  unfold replace. induction 1 as [|x t Hx _ IH]; [reflexivity|].
  cbn [replace_go]. rewrite startswith_char.
  destruct (ascii_dec c x); [congruence | now rewrite IH].
Qed.

Lemma replace_char_del_Forall (c : ascii) (t : str) :
  Forall (fun x => x <> c) (replace t [c] []).
Proof.
  rewrite replace_char_del. apply Forall_forall. intros x Hx.
  apply filter_In in Hx as [_ Hx]. destruct (ascii_dec c x); congruence.
Qed.

Lemma replace_char_del_keeps (P : ascii -> Prop) (c : ascii) (t : str) :
  Forall P t -> Forall P (replace t [c] []).
Proof.
  rewrite replace_char_del, !Forall_forall. intros H x Hx.
  apply filter_In in Hx as [Hx _]. auto.
Qed.

(** *** split and join, for one character *)

Lemma split_go_char_piece (c : ascii) (cur a : str) :
  Forall (fun x => x <> c) a ->
  split_go [c] 0 cur a = [rev cur ++ a].
Proof.
  intros H. revert cur. induction H as [|x a Hx _ IH]; intros cur.
  - simpl. now rewrite app_nil_r.
  - cbn [split_go]. rewrite startswith_char.
    destruct (ascii_dec c x); [congruence|].
    rewrite IH. simpl. now rewrite <- app_assoc.
Qed.

Lemma split_go_char_cut (c : ascii) (cur a b : str) :
  Forall (fun x => x <> c) a ->
  split_go [c] 0 cur (a ++ c :: b) = (rev cur ++ a) :: split_go [c] 0 [] b.
Proof.
  intros H. revert cur. induction H as [|x a Hx _ IH]; intros cur.
  - cbn [app split_go]. rewrite startswith_char.
    destruct (ascii_dec c c); [|congruence]. now rewrite app_nil_r.
  - cbn [app split_go]. rewrite startswith_char.
    destruct (ascii_dec c x); [congruence|].
    rewrite IH. simpl. now rewrite <- app_assoc.
Qed.

Lemma split_join_char (c : ascii) (fields : list str) :
  fields <> [] ->
  Forall (Forall (fun x => x <> c)) fields ->
  split (join [c] fields) [c] = fields.
Proof.
  unfold split. intros Hne H. revert Hne.
  induction H as [|f fields Hf H IH]; [intros Hne; now elim Hne | intros _].
  destruct fields as [|g fields].
  - simpl. now rewrite split_go_char_piece.
  - change (join [c] (f :: g :: fields))
      with (f ++ c :: join [c] (g :: fields)).
    rewrite split_go_char_cut by assumption.
    simpl rev. simpl app. f_equal. apply IH. discriminate.
Qed.

Lemma split_rows (c : ascii) (rows : list str) :
  Forall (Forall (fun x => x <> c)) rows ->
  split (concat (map (fun r => r ++ [c]) rows)) [c] = rows ++ [[]].
Proof.
  unfold split. induction 1 as [|r rows Hr _ IH]; [reflexivity|].
  cbn [map concat]. rewrite <- app_assoc. cbn [app].
  rewrite split_go_char_cut by assumption. simpl. now rewrite IH.
Qed.

(** *** splitlines *)

Lemma splitlines_go_nonempty (cur t : str) :
  cur <> [] \/ t <> [] -> splitlines_go cur t <> [].
Proof.
  revert cur. induction t as [|c t IH]; intros cur H.
  - destruct cur; [destruct H; congruence | simpl; discriminate].
  - cbn [splitlines_go]. destruct (islinebreak c).
    + destruct t as [|d t'']; [discriminate|].
      destruct ((code c =? 13) && (code d =? 10)); discriminate.
    + apply IH. left. discriminate.
Qed.

End BuiltinFacts.

(** * Properties of the script *)

(** ** Price normalisation (lines 134-136) *)

Lemma clean_price_chars (p : str) : Forall price_char (clean_price p).
Proof.
  unfold clean_price. apply strip_Forall.
  change (txt "$") with ["$"%char]. change (txt ",") with [","%char].
  pose proof (replace_char_del_Forall "$"%char
                (replace p [","%char] [])) as H1.
  pose proof (replace_char_del_keeps "$"%char
                (replace_char_del_Forall ","%char p)) as H2.
  rewrite Forall_forall in *. intros x Hx. split; auto.
Qed.

Lemma clean_price_plain (p : str) :
  Forall price_char p -> clean_price p = strip p.
Proof.
  intros H. unfold clean_price.
  change (txt "$") with ["$"%char]. change (txt ",") with [","%char].
  rewrite (replace_char_absent (c:=","%char)).
  - rewrite (replace_char_absent (c:="$"%char)); trivial.
    eapply Forall_impl; [|exact H]. now intros a [_ Ha].
  - eapply Forall_impl; [|exact H]. now intros a [Ha _].
Qed.

(** C9.  Normalising a unit price (dropping every comma and dollar sign,
    then trimming white space) a second time changes nothing; and the
    strings it leaves unchanged are exactly those without comma, without
    dollar sign and without white space at either end, such as 500.00. *)
Theorem clean_price_idempotent (p : str) :
  clean_price (clean_price p) = clean_price p
  /\ (clean_price p = p <-> Forall price_char p /\ strip p = p).
Proof.
  assert (I : clean_price (clean_price p) = clean_price p).
  { rewrite (clean_price_plain (clean_price_chars p)).
    unfold clean_price. apply strip_idem. }
  split; [exact I|]. split.
  - intros E. split.
    + rewrite <- E. apply clean_price_chars.
    + rewrite <- E at 1. rewrite <- (clean_price_plain (clean_price_chars p)).
      now rewrite I.
  - intros [H E]. now rewrite clean_price_plain.
Qed.

Example clean_price_of_clean : clean_price (txt "500.00") = txt "500.00".
Proof. reflexivity. Qed.

Example clean_price_of_dollars : clean_price (txt "$1,000.00") = txt "1000.00".
Proof. reflexivity. Qed.

(** ** Date normalisation (lines 147-149) *)

Lemma map_slash_digits (t : str) :
  forallb isdigit t = true ->
  map (fun x => if ascii_dec "/"%char x then "-"%char else x) t = t.
Proof.
  induction t as [|c t IH]; [reflexivity|]. cbn [map forallb].
  intros H. apply andb_prop in H as [Hc Ht].
  destruct (ascii_dec "/"%char c) as [<-|_]; [discriminate Hc|].
  now rewrite IH.
Qed.

(** C8.  A date of two digits, a separator, two digits, the same separator
    and four digits, the separator being a slash or a hyphen, becomes year,
    hyphen, month, hyphen, day. *)
Theorem reformat_date_iso (mm dd yyyy : str) (sep : ascii) :
  length mm = 2%nat -> length dd = 2%nat -> length yyyy = 4%nat ->
  forallb isdigit (mm ++ dd ++ yyyy) = true ->
  sep = "/"%char \/ sep = "-"%char ->
  reformat_date (mm ++ sep :: dd ++ sep :: yyyy)
  = Ok (yyyy ++ "-"%char :: mm ++ "-"%char :: dd).
Proof.
  intros Hm Hd Hy Hdig Hsep.
  destruct mm as [|m1 [|m2 [|? ?]]]; try discriminate Hm.
  destruct dd as [|d1 [|d2 [|? ?]]]; try discriminate Hd.
  cbn [app] in *. cbn [forallb] in Hdig.
  apply andb_prop in Hdig as [H1 Hdig]. apply andb_prop in Hdig as [H2 Hdig].
  apply andb_prop in Hdig as [H3 Hdig]. apply andb_prop in Hdig as [H4 Hdig].
  unfold reformat_date.
  change (txt "/") with ["/"%char]. change (txt "-") with ["-"%char].
  rewrite replace_char_char. cbn [map].
  rewrite (map_slash_digits _ Hdig).
  destruct (ascii_dec "/"%char m1) as [<-|_]; [discriminate H1|].
  destruct (ascii_dec "/"%char m2) as [<-|_]; [discriminate H2|].
  destruct (ascii_dec "/"%char d1) as [<-|_]; [discriminate H3|].
  destruct (ascii_dec "/"%char d2) as [<-|_]; [discriminate H4|].
  assert (Es : (if ascii_dec "/"%char sep then "-"%char else sep) = "-"%char).
  { destruct Hsep as [-> | ->]; reflexivity. }
  rewrite Es. rewrite index_nonneg by lia. cbn [rbind Z.to_nat].
  rewrite slice_from, slice_to by lia. reflexivity.
Qed.

Lemma reformat_date_iso_witness :
  forallb isdigit (txt "03" ++ txt "14" ++ txt "2024") = true
  /\ reformat_date (txt "03/14/2024") = Ok (txt "2024-03-14").
Proof.
  split; [reflexivity|].
  apply (reformat_date_iso (txt "03") (txt "14") (txt "2024") (sep:="/"%char));
    try reflexivity.
  left; reflexivity.
Defined.

Example reformat_date_hyphens :
  reformat_date (txt "03-14-2024") = Ok (txt "2024-03-14").
Proof. reflexivity. Qed.

(** A date of fewer than six characters has no [date[5]]. *)
Example reformat_date_short : reformat_date (txt "03/14") = Raise IndexError.
Proof. reflexivity. Qed.

(** ** Rendering (Asset.to_string) *)

Lemma plain_no_comma (f : str) :
  plain f = true -> Forall (fun x => x <> ","%char) f.
Proof.
  unfold plain. rewrite forallb_forall, Forall_forall. intros H x Hx.
  apply H in Hx. destruct (ascii_dec x ","); [discriminate | assumption].
Qed.

Lemma plain_no_newline (f : str) :
  plain f = true -> Forall (fun x => x <> LF) f.
Proof.
  unfold plain. rewrite forallb_forall, Forall_forall. intros H x Hx.
  apply H in Hx. apply andb_prop in Hx as [_ Hx].
  destruct (ascii_dec x LF); [discriminate | assumption].
Qed.

Lemma join_Forall (P : ascii -> Prop) (sep : str) (l : list str) :
  Forall P sep -> Forall (Forall P) l -> Forall P (join sep l).
Proof.
  intros Hs H. induction H as [|x l Hx H IH]; [constructor|].
  destruct l as [|y l]; [exact Hx|].
  change (join sep (x :: y :: l)) with (x ++ sep ++ join sep (y :: l)).
  repeat (apply Forall_app; split); assumption.
Qed.

Lemma asset_str_join (self : Asset) (serial_no : str) :
  asset_str self serial_no = join (txt ",") (columns self serial_no) ++ [LF].
Proof.
  unfold asset_str, columns. cbn [join]. now rewrite <- !app_assoc.
Qed.

Lemma fold_left_rows {A} (f : A -> str) (l : list A) (init : str) :
  fold_left (fun acc x => acc ++ f x) l init = init ++ concat (map f l).
Proof.
  revert init. induction l as [|x l IH]; intros init; simpl.
  - now rewrite app_nil_r.
  - now rewrite IH, app_assoc.
Qed.

Lemma to_string_concat (self : Asset) :
  to_string self
  = concat (map (fun r => r ++ [LF])
                (map (fun sn => join (txt ",") (columns self sn))
                     (serial_nos self))).
Proof.
  unfold to_string. rewrite fold_left_rows. cbn [app]. rewrite map_map.
  f_equal. apply map_ext. intros sn. apply asset_str_join.
Qed.

Lemma plain_asset_columns (a : Asset) (sn : str) :
  plain_asset a = true -> In sn (serial_nos a) ->
  Forall (fun f => plain f = true) (columns a sn).
Proof.
  unfold plain_asset. intros H Hsn.
  repeat (apply andb_prop in H as [H ?]).
  assert (Hs : plain sn = true).
  { rewrite forallb_forall in *. auto. }
  unfold columns. repeat constructor; assumption.
Qed.

(** C7.  For an asset whose values hold no comma and no newline, the text
    [to_string] returns consists of as many rows as there are serial
    numbers, in their order and with repeats kept, each closed by a
    newline; split at its commas, the row of a serial number is the eleven
    values item name, category, location, purchase date, purchase cost,
    model name, model number, that serial number, order number, requestable
    and last audit, which is the order of the columns of [CSV_HEADER]. *)
Theorem to_string_rows (a : Asset) :
  plain_asset a = true ->
  split (to_string a) [LF] = rows_of (to_string a) ++ [[]]
  /\ length (rows_of (to_string a)) = length (serial_nos a)
  /\ map (fun row => split row (txt ",")) (rows_of (to_string a))
     = map (columns a) (serial_nos a)
  /\ Forall (fun row => length (split row (txt ",")) = 11%nat)
            (rows_of (to_string a))
  /\ map (fun row => split row (txt ",")) (rows_of CSV_HEADER)
     = [ [ txt "Item Name"; txt "Category"; txt "Location";
           txt "Purchase Date"; txt "Purchase Cost"; txt "Model Name";
           txt "Model Number"; txt "Serial Number"; txt "Order Number";
           txt "Requestable"; txt "Last Audit" ] ].
Proof.
  intros Hp.
  assert (L : split (to_string a) [LF]
              = map (fun sn => join (txt ",") (columns a sn)) (serial_nos a)
                ++ [[]]).
  { rewrite to_string_concat. apply split_rows.
    apply Forall_forall. intros row Hrow.
    apply in_map_iff in Hrow as (sn & <- & Hsn).
    apply join_Forall; [repeat constructor; discriminate|].
    eapply Forall_impl; [|exact (@plain_asset_columns a sn Hp Hsn)].
    intros f. apply plain_no_newline. }
  assert (R : rows_of (to_string a)
              = map (fun sn => join (txt ",") (columns a sn)) (serial_nos a))
    by (unfold rows_of; rewrite L; apply removelast_last).
  assert (S : forall sn, In sn (serial_nos a) ->
              split (join (txt ",") (columns a sn)) (txt ",") = columns a sn).
  { intros sn Hsn. apply split_join_char; [discriminate|].
    eapply Forall_impl; [|exact (@plain_asset_columns a sn Hp Hsn)].
    intros f. apply plain_no_comma. }
  rewrite R. split; [exact L | split; [|split; [|split]]].
  - apply length_map.
  - rewrite map_map. apply map_ext_in. exact S.
  - apply Forall_forall. intros row Hrow.
    apply in_map_iff in Hrow as (sn & <- & Hsn). now rewrite S.
  - reflexivity.
Qed.

Lemma to_string_rows_witness :
  plain_asset sample_asset = true
  /\ length (rows_of (to_string sample_asset)) = 3%nat
  /\ map (fun row => split row (txt ",")) (rows_of (to_string sample_asset))
     = map (columns sample_asset) [txt "SN1"; txt "SN2"; txt "SN1"].
Proof.
  assert (Hp : plain_asset sample_asset = true) by reflexivity.
  destruct (@to_string_rows sample_asset Hp) as (_ & H1 & H2 & _).
  split; [exact Hp|]. split; [exact H1 | exact H2].
Defined.

Example to_string_sample :
  to_string sample_asset
  = txt "ModelX Widget Pro,Laptop,Naples Office,2024-03-14,500.00,ModelX,MN-100,SN1,531363,true,2024-03-14" ++ [LF]
    ++ txt "ModelX Widget Pro,Laptop,Naples Office,2024-03-14,500.00,ModelX,MN-100,SN2,531363,true,2024-03-14" ++ [LF]
    ++ txt "ModelX Widget Pro,Laptop,Naples Office,2024-03-14,500.00,ModelX,MN-100,SN1,531363,true,2024-03-14" ++ [LF].
Proof. reflexivity. Qed.

(** ** Known categories (check_for_common_categories) *)

Lemma matches_iff (name category : str) :
  matches name category = true <-> ci_occurs category name.
Proof.
  unfold matches. rewrite Z.leb_le, find_found. unfold occurs, ci_occurs, lower.
  split.
  - intros (pre & post & H).
    apply map_eq_app in H as (pre' & rest & -> & <- & H).
    apply map_eq_app in H as (mid & post' & -> & H & <-).
    now exists pre', mid, post'.
  - intros (pre & mid & post & -> & H).
    exists (map lower_char pre), (map lower_char post).
    now rewrite !map_app, H.
Qed.

Section LastMatch.
Context {A : Type} (m : A -> bool).

Lemma fold_last_match (l : list A) (init r : option A) :
  fold_left (fun found x => if m x then Some x else found) l init = r <->
  (Forall (fun x => m x = false) l /\ r = init)
  \/ (exists pre c post,
        l = pre ++ c :: post /\ m c = true
        /\ Forall (fun x => m x = false) post /\ r = Some c).
Proof.
  revert init. induction l as [|x l IH]; intros init.
  - simpl. split.
    + intros <-. left. now split.
    + intros [[_ ->]|(pre & c & post & H & _)]; [reflexivity|].
      now destruct pre.
  - cbn [fold_left]. rewrite IH. split.
    + intros [[Hl ->]|(pre & c & post & -> & Hc & Hpost & ->)].
      * destruct (m x) eqn:E.
        -- right. now exists [], x, l.
        -- left. split; [now constructor | reflexivity].
      * right. now exists (x :: pre), c, post.
    + intros [[Hl ->]|(pre & c & post & H & Hc & Hpost & ->)].
      * left. inversion_clear Hl as [|? ? Hx Hl']. rewrite Hx. now split.
      * destruct pre as [|y pre]; injection H as -> ->.
        -- left. rewrite Hc. now split.
        -- right. now exists pre, c, post.
Qed.
End LastMatch.

(** C6.  The classifier returns a category exactly when that category
    occurs in the name, case not told apart, and no category listed after
    it in [COMMON_CATEGORIES] does: of several that occur, the one listed
    last. *)
Theorem check_for_common_categories_last (name c : str) :
  check_for_common_categories name = Some c <->
  exists before after,
    COMMON_CATEGORIES = before ++ c :: after
    /\ ci_occurs c name
    /\ Forall (fun d => ~ ci_occurs d name) after.
Proof.
  unfold check_for_common_categories.
  change (fold_left _ COMMON_CATEGORIES None)
    with (fold_left (fun found x => if matches name x then Some x else found)
                    COMMON_CATEGORIES None).
  rewrite (fold_last_match (matches name)). split.
  - intros [[_ H]|(pre & c' & post & H & Hc & Hpost & E)]; [discriminate|].
    injection E as <-. exists pre, post. split; [exact H|].
    split; [now apply matches_iff|].
    eapply Forall_impl; [|exact Hpost].
    intros d Hd Hocc. apply matches_iff in Hocc. congruence.
  - intros (pre & post & H & Hc & Hpost). right.
    exists pre, c, post. split; [exact H|].
    split; [now apply matches_iff|]. split; [|reflexivity].
    eapply Forall_impl; [|exact Hpost].
    intros d Hd. destruct (matches name d) eqn:E; [|reflexivity].
    now apply matches_iff in E.
Qed.

Example two_categories_in_a_name :
  check_for_common_categories (txt "Switch and ROUTER for a laptop dock")
  = Some (txt "Switch").
Proof. reflexivity. Qed.

(** ** Asking for the category (get_category) *)

Lemma get_category_known (model_no name model category : str) (w : World) :
  check_for_common_categories name = Some category ->
  get_category model_no name model w = (Ok category, w).
Proof. intros H. unfold get_category. now rewrite H. Qed.

Lemma get_category_asks (model_no name model answer : str)
    (rest : list str) (out : str) :
  check_for_common_categories name = None ->
  get_category model_no name model {| stdin := answer :: rest; stdout := out |}
  = (Ok (capitalize answer),
     {| stdin := rest;
        stdout := out ++ category_prompt model_no name model |}).
Proof.
  intros H. unfold get_category. rewrite H.
  unfold bind, print2, write, input, ret, category_prompt. cbn [stdin stdout].
  now rewrite <- !app_assoc.
Qed.

Lemma get_category_eof (model_no name model out : str) :
  check_for_common_categories name = None ->
  get_category model_no name model {| stdin := []; stdout := out |}
  = (Raise EOFError,
     {| stdin := [];
        stdout := out ++ category_prompt model_no name model |}).
Proof.
  intros H. unfold get_category. rewrite H.
  unfold bind, print2, write, input, ret, category_prompt. cbn [stdin stdout].
  now rewrite <- !app_assoc.
Qed.

(** *** Capitalising *)

(** The case mappings of the embedding agree with the table of letters,
    character by character. *)
Lemma title_char_uppercased (c : ascii) : title_char c = uppercased c.
Proof. destruct c as [[] [] [] [] [] [] [] []]; vm_compute; reflexivity. Qed.

Lemma lower_char_lowercased (c : ascii) : lower_char c = lowercased c.
Proof. destruct c as [[] [] [] [] [] [] [] []]; vm_compute; reflexivity. Qed.

Lemma title_char_nonempty (c : ascii) : title_char c <> Some [].
Proof.
  unfold title_char.
  destruct ((code c =? 181) || (code c =? 255)); [discriminate|].
  destruct (code c =? 223); [discriminate|].
  destruct (islower_cased c); discriminate.
Qed.

Lemma capitalize_nil_iff (t : str) : capitalize t = [] <-> t = [].
Proof.
  destruct t as [|c t]; [tauto|]. split; [|discriminate].
  cbn [capitalize]. destruct (title_char c) as [first|] eqn:E; [|discriminate].
  destruct first; [|discriminate].
  intros _. exfalso. exact (title_char_nonempty c E).
Qed.

Lemma capitalize_by_table (c : ascii) (t first : str) :
  uppercased c = Some first ->
  capitalize (c :: t) = first ++ map lowercased t.
Proof.
  intros H. cbn [capitalize]. rewrite title_char_uppercased, H.
  f_equal. unfold lower. apply map_ext. exact lower_char_lowercased.
Qed.

(** C5, as the code has it.  When no known category occurs in the name,
    every line read from the input is accepted: the category returned is
    the capitalised line, which is empty exactly when the line is.  The
    only failure is the end of the input, where [input] raises
    [EOFError]. *)
Theorem get_category_accepts_any_answer
    (model_no name model answer : str) (rest : list str) (out : str) :
  check_for_common_categories name = None ->
  fst (get_category model_no name model
         {| stdin := answer :: rest; stdout := out |})
  = Ok (capitalize answer)
  /\ (capitalize answer = [] <-> answer = [])
  /\ fst (get_category model_no name model {| stdin := []; stdout := out |})
     = Raise EOFError.
Proof.
  intros H. rewrite get_category_asks, get_category_eof by exact H.
  split; [reflexivity|]. split; [|reflexivity].
  apply capitalize_nil_iff.
Qed.

Lemma get_category_accepts_any_answer_witness :
  check_for_common_categories (txt "Widget Pro") = None
  /\ fst (get_category (txt "MN-100") (txt "Widget Pro") (txt "ModelX")
            {| stdin := [txt "dock"]; stdout := [] |})
     = Ok (txt "Dock").
Proof.
  split; [reflexivity|].
  apply (@get_category_accepts_any_answer (txt "MN-100") (txt "Widget Pro")
           (txt "ModelX") (txt "dock") [] [] eq_refl).
Defined.

(** C5, as the specification states it, fails: an empty line is returned as
    the category, and nothing is raised. *)
Lemma get_category_empty_answer :
  check_for_common_categories (txt "Widget Pro") = None
  /\ get_category (txt "MN-100") (txt "Widget Pro") (txt "ModelX")
       {| stdin := [[]]; stdout := [] |}
     = (Ok [],
        {| stdin := [];
           stdout := category_prompt (txt "MN-100") (txt "Widget Pro")
                                     (txt "ModelX") |}).
Proof. split; reflexivity. Qed.

(** C10.  When no known category occurs in the name and the line read is
    not empty, the category is that line with its first character
    upper-cased and every other character lower-cased, capitals and small
    letters as the table of letters pairs them (Ss for a first SHARP S).
    The two first characters whose capital is no character of the
    embedding, MICRO SIGN and Y WITH DIAERESIS, are those without
    [uppercased]. *)
Theorem get_category_capitalizes
    (model_no name model : str) (c : ascii) (answer capital : str)
    (rest : list str) (out : str) :
  check_for_common_categories name = None ->
  uppercased c = Some capital ->
  fst (get_category model_no name model
         {| stdin := (c :: answer) :: rest; stdout := out |})
  = Ok (capital ++ map lowercased answer).
Proof.
  intros H U. rewrite get_category_asks by exact H. cbn [fst].
  f_equal. now apply capitalize_by_table.
Qed.

Lemma get_category_capitalizes_witness :
  check_for_common_categories (txt "Widget Pro") = None
  /\ uppercased "m" = Some (txt "M")
  /\ fst (get_category (txt "MN-100") (txt "Widget Pro") (txt "ModelX")
            {| stdin := [txt "macBook Pro"]; stdout := [] |})
     = Ok (txt "Macbook pro").
Proof.
  split; [reflexivity|]. split; [reflexivity|].
  exact (@get_category_capitalizes (txt "MN-100") (txt "Widget Pro")
           (txt "ModelX") "m" (txt "acBook Pro") (txt "M") [] []
           eq_refl eq_refl).
Defined.

(** The answer of the claim, which starts with a capital. *)
Example get_category_macbook :
  fst (get_category (txt "MN-100") (txt "Widget Pro") (txt "ModelX")
         {| stdin := [txt "MacBook Pro"]; stdout := [] |})
  = Ok (txt "Macbook pro").
Proof. reflexivity. Qed.

(** A first SHARP S becomes Ss, and an accented small letter its
    capital. *)
Example capitalize_latin :
  capitalize (ascii_of_nat 223 :: txt "TRASSE") = txt "Sstrasse"
  /\ capitalize (ascii_of_nat 233 :: txt "COLE")
     = ascii_of_nat 201 :: txt "cole".
Proof. split; reflexivity. Qed.

Example case_tables :
  map uppercased (txt "az09 Z")
  = map (fun c => Some [c]) (txt "AZ09 Z")
  /\ map lowercased (txt "AZ09 a") = txt "az09 a"
  /\ uppercased (ascii_of_nat 181) = None
  /\ uppercased (ascii_of_nat 255) = None.
Proof. repeat split; reflexivity. Qed.

(** ** The item block and its fields (parse_pdf) *)

Lemma take_price_layout (t0 q p t : str) (rest : list str) :
  take_price (t0 :: q :: p :: t :: rest) = Ok (clean_price p, t0 :: rest).
Proof.
  unfold take_price.
  rewrite pop_1; cbn [rbind]. rewrite pop_1; cbn [rbind]. now rewrite pop_1.
Qed.

Lemma take_price_short (l : list str) :
  (length l < 4)%nat -> take_price l = Raise IndexError.
Proof.
  intros H. destruct l as [|a [|b [|c [|d l]]]]; try reflexivity.
  simpl in H. lia.
Qed.

Lemma split_go_nonempty (sep : str) (skip : nat) (cur t : str) :
  split_go sep skip cur t <> [].
Proof.
  revert skip cur. induction t as [|c t IH]; intros skip cur; [discriminate|].
  cbn [split_go]. destruct skip; [|apply IH].
  destruct (startswith sep (c :: t)); [discriminate | apply IH].
Qed.

Lemma index_0_nonempty {A} (l : list A) :
  l <> [] -> exists x, index l 0 = Ok x.
Proof.
  destruct l as [|x l]; [congruence | intros _].
  exists x. apply index_0.
Qed.

Lemma info_lines_pieces (info : str) :
  Forall (fun l => l <> []) (info_lines info).
Proof.
  unfold info_lines. apply Forall_forall. intros l Hl.
  apply in_map_iff in Hl as (x & <- & Hx).
  apply filter_In in Hx as [_ Hx]. unfold nonempty, str_eqb in Hx.
  destruct (list_eq_dec ascii_dec x []) as [|Hne]; [discriminate|].
  apply splitlines_go_nonempty. now right.
Qed.

Lemma concat_nil_pieces {A} (ls : list (list A)) :
  Forall (fun l => l <> []) ls -> concat ls = [] -> ls = [].
Proof.
  destruct 1 as [|l ls Hl _]; [reflexivity|].
  simpl. intros H. apply app_eq_nil in H as [H _]. contradiction.
Qed.

(** C4, as the code has it.  For an item block with a colon-space
    separator, extraction succeeds exactly when the structured part has at
    least four tokens.  With fewer it raises a Python built-in: [TypeError]
    (from [reduce]) when there is no token at all, [IndexError] (from
    [pop]) when there are one, two or three. *)
Theorem extract_fields_needs_four_tokens (item info : str) :
  index (split item (txt ": ")) 1 = Ok info ->
  ((length (item_tokens info) < 4)%nat ->
   extract_fields item
   = Raise (match item_tokens info with
            | [] => TypeError
            | _ :: _ => IndexError
            end))
  /\ ((4 <= length (item_tokens info))%nat ->
      exists f, extract_fields item = Ok f).
Proof.
  intros Hinfo. unfold extract_fields, item_tokens.
  assert (Hne : split item (txt ": ") <> []) by apply split_go_nonempty.
  destruct (index_0_nonempty Hne) as [model_no ->].
  destruct (index_last Hne) as [last ->].
  rewrite Hinfo. cbn [rbind].
  set (info' := slice info None (Some (find info (txt "Serial")))).
  pose proof (info_lines_pieces info') as Hp.
  destruct (info_lines info') as [|l ls] eqn:El.
  - split; [reflexivity | simpl; lia].
  - rewrite reduce_add_concat by discriminate. cbn [rbind].
    destruct (concat (l :: ls)) as [|a toks] eqn:Ec.
    { apply concat_nil_pieces in Ec; [discriminate | exact Hp]. }
    split.
    + intros Hlen. now rewrite take_price_short.
    + intros Hlen. destruct toks as [|b [|c [|d rest]]];
        try (simpl in Hlen; lia).
      rewrite take_price_layout. cbn [rbind].
      rewrite index_0. cbn [rbind].
      destruct (@index_0_nonempty _ (split a (txt ", ")))
        as [model ->]; [apply split_go_nonempty|].
      cbn [rbind]. eexists. reflexivity.
Qed.

Lemma extract_fields_needs_four_tokens_witness :
  index (split two_token_block (txt ": ")) 1
  = Ok (txt "ModelX  2 Serial Numbers")
  /\ item_tokens (txt "ModelX  2 Serial Numbers") = [txt "ModelX"; txt "2 "]
  /\ extract_fields two_token_block = Raise IndexError
  /\ exists f, extract_fields four_token_block = Ok f.
Proof.
  split; [reflexivity|]. split; [reflexivity|]. split.
  - apply (proj1 (@extract_fields_needs_four_tokens two_token_block
                    (txt "ModelX  2 Serial Numbers") eq_refl)).
    simpl. lia.
  - apply (proj2 (@extract_fields_needs_four_tokens four_token_block
                    (txt "ModelX, Widget Pro  2  $500.00  $1,000.00  Serial Numbers")
                    eq_refl)).
    simpl. lia.
Defined.

(** C4, as the specification states it, fails: a block with two tokens
    ends in the [IndexError] of the second [pop(1)], and a block with three
    tokens, which the specification lets through, in that of the third. *)
Lemma extract_fields_short_block_index_error :
  item_tokens (txt "ModelX  2 Serial Numbers") = [txt "ModelX"; txt "2 "]
  /\ extract_fields two_token_block = Raise IndexError
  /\ item_tokens (txt "ModelX  2  $500.00 Serial Numbers")
     = [txt "ModelX"; txt "2"; txt "$500.00 "]
  /\ extract_fields (txt "MN-100: ModelX  2  $500.00 Serial Numbers: SN1")
     = Raise IndexError.
Proof. repeat split; reflexivity. Qed.

(** C2, as the code has it.  The three [pop(1)] calls keep the first token
    and the tokens from the fifth on as description and take the price from
    the third token: the layout is description, quantity, unit price, total
    price.  On the block of the specification's example, whose first token
    is the quantity, the price is therefore the total and model and name
    are the quantity; on the same data with the description first, the
    fields are those of the example, the name being the whole description
    without its comma. *)
Theorem extract_fields_layout :
  (forall (t0 q p t : str) (rest : list str),
      take_price (t0 :: q :: p :: t :: rest) = Ok (clean_price p, t0 :: rest))
  /\ extract_fields quantity_first_block
     = Ok {| f_model_no := txt "MN-100"; f_name := txt "2";
             f_model := txt "2"; f_price := txt "1000.00";
             f_serial_nos := [txt "SN1"; txt "SN2"] |}
  /\ extract_fields four_token_block
     = Ok {| f_model_no := txt "MN-100"; f_name := txt "ModelX Widget Pro";
             f_model := txt "ModelX"; f_price := txt "500.00";
             f_serial_nos := [txt "SN1"; txt "SN2"] |}.
Proof.
  split; [exact take_price_layout|]. split; reflexivity.
Qed.

(** C2, as the specification states it, fails on its own block. *)
Lemma extract_fields_quantity_first :
  exists f,
    extract_fields quantity_first_block = Ok f
    /\ f_model_no f = txt "MN-100"
    /\ f_price f = txt "1000.00" /\ f_price f <> txt "500.00"
    /\ f_model f = txt "2" /\ f_model f <> txt "ModelX"
    /\ f_name f = txt "2" /\ f_name f <> txt "Widget Pro"
    /\ f_serial_nos f = [txt "SN1"; txt "SN2"].
Proof.
  exists {| f_model_no := txt "MN-100"; f_name := txt "2";
            f_model := txt "2"; f_price := txt "1000.00";
            f_serial_nos := [txt "SN1"; txt "SN2"] |}.
  split; [reflexivity|]. vm_compute.
  repeat split; discriminate.
Qed.

(** ** Whole pages *)

(** C3.  The name of the item of [laptop_page] holds the known category
    Laptop, its model does not.  [parse_pdf] passes model and name to
    [get_category] in the places of [name] and [model], so the model is
    what is searched for a known category: the operator is asked, and the
    answer is stored. *)
Theorem parse_pdf_searches_model_for_category :
  exists a w,
    parse_pdf laptop_page {| stdin := [txt "tablet"]; stdout := [] |}
    = (Ok a, w)
    /\ name a = txt "Latitude 5540 Dell Laptop"
    /\ model a = txt "Latitude 5540"
    /\ check_for_common_categories (name a) = Some (txt "Laptop")
    /\ check_for_common_categories (model a) = None
    /\ category a = txt "Tablet"
    /\ stdin w = []
    /\ stdout w
       = category_prompt (txt "MN-100") (txt "Latitude 5540")
                         (txt "Latitude 5540 Dell Laptop").
Proof.
  eexists. eexists. split; [vm_compute; reflexivity|].
  vm_compute. repeat split.
Qed.

(** The purchase date of [laptop_page], found after BCB Homes. *)
Example parse_pdf_date :
  get_next_item laptop_page (txt "BCB Homes") = Ok (txt "03/14/2024")
  /\ exists a w,
       parse_pdf laptop_page {| stdin := [txt "tablet"]; stdout := [] |}
       = (Ok a, w)
       /\ date a = txt "2024-03-14" /\ last_audit_date a = txt "2024-03-14"
       /\ order_no a = txt "531363".
Proof.
  split; [reflexivity|].
  eexists. eexists. split; [vm_compute; reflexivity|].
  vm_compute. repeat split.
Qed.

(** Called with the name in the place of its parameter [name],
    [get_category] finds the category and asks nothing. *)
Example get_category_on_name (w : World) :
  get_category (txt "MN-100") (txt "Dell Latitude Laptop") (txt "Latitude") w
  = (Ok (txt "Laptop"), w).
Proof. now apply get_category_known. Qed.

(** C1, as the specification states it, fails.  Without the START anchor
    [find] returns -1, the block starts at index 33, and [parse_pdf]
    returns an asset whose model number is text from before the item.
    Without the END anchor the block ends before the last character of the
    page, and [parse_pdf] returns an asset whose last serial number has
    lost its last character. *)
Lemma parse_pdf_without_anchor :
  find page_without_start START_STRING = -1
  /\ locate_item page_without_start
     = txt "uest Number   531363" ++ [LF]
       ++ txt "Billable Products & Other Charges" ++ [LF]
       ++ txt "MN-100: Laptop X1, Lenovo  2  $500.00  $1,000.00" ++ [LF]
       ++ txt "Serial Numbers: SN1, SN2"
  /\ (exists a,
        parse_pdf page_without_start {| stdin := []; stdout := [] |}
        = (Ok a, {| stdin := []; stdout := [] |})
        /\ model_no a
           = txt "uest Number   531363" ++ [LF]
             ++ txt "Billable Products & Other Charges" ++ [LF]
             ++ txt "MN-100"
        /\ price a = txt "500.00"
        /\ serial_nos a = [txt "SN1"; txt "SN2"])
  /\ find page_without_end END_STRING = -1
  /\ locate_item page_without_end
     = txt "MN-100: Laptop X1, Lenovo  2  $500.00  $1,000.00" ++ [LF]
       ++ txt "Serial Numbers: SN1, SN"
  /\ (exists a,
        parse_pdf page_without_end {| stdin := []; stdout := [] |}
        = (Ok a, {| stdin := []; stdout := [] |})
        /\ model_no a = txt "MN-100"
        /\ serial_nos a = [txt "SN1"; txt "SN"]).
Proof.
  split; [reflexivity|]. split; [reflexivity|]. split.
  { eexists. split; [vm_compute; reflexivity|]. vm_compute. repeat split. }
  split; [reflexivity|]. split; [reflexivity|].
  eexists. split; [vm_compute; reflexivity|]. vm_compute. repeat split.
Qed.

(** C1, as the code has it.  The locator raises nothing.  It returns the
    stripped characters of the page from index [lo] up to index [hi],
    where [lo] is 33 when the START anchor does not occur (34 past its
    first occurrence otherwise) and [hi] is the index of the last character
    when the END anchor does not occur (that of its first occurrence
    otherwise). *)
Theorem locate_item_without_anchor (page_text : str) :
  ~ occurs START_STRING page_text \/ ~ occurs END_STRING page_text ->
  exists lo hi : nat,
    locate_item page_text
    = strip (firstn (hi - lo) (skipn lo page_text))
    /\ (~ occurs START_STRING page_text -> lo = 33%nat)
    /\ (occurs START_STRING page_text ->
        Z.of_nat lo = find page_text START_STRING + 34)
    /\ (~ occurs END_STRING page_text -> hi = (length page_text - 1)%nat)
    /\ (occurs END_STRING page_text ->
        Z.of_nat hi = find page_text END_STRING).
Proof.
  intros _.
  set (a := find page_text START_STRING + len START_STRING).
  set (e := find page_text END_STRING).
  assert (Ha : 33 <= a).
  { unfold a. change (len START_STRING) with 34.
    destruct (find_range page_text START_STRING); lia. }
  exists (Z.to_nat a), (Z.to_nat (clamp (len page_text) e)).
  split; [|split; [|split; [|split]]].
  - unfold locate_item. fold a e. f_equal.
    unfold slice. assert (Hn : len page_text = Z.of_nat (length page_text))
      by reflexivity.
    assert (He : 0 <= clamp (len page_text) e)
      by (pose proof (len_nonneg page_text); unfold clamp;
          destruct (Z.ltb_spec e 0); lia).
    assert (Ca : clamp (len page_text) a = Z.min a (len page_text))
      by (unfold clamp; destruct (Z.ltb_spec a 0); lia).
    cbv zeta. rewrite Ca.
    destruct (Z.le_gt_cases a (len page_text)) as [Hal|Hal].
    + rewrite (Z.min_l a) by lia. f_equal. lia.
    + rewrite (Z.min_r a) by lia.
      rewrite !skipn_all2 by lia. now rewrite !firstn_nil.
  - intros H. apply find_absent in H. unfold a. rewrite H. reflexivity.
  - intros H. apply find_found in H. unfold a.
    change (len START_STRING) with 34. lia.
  - intros H. apply find_absent in H. unfold e, clamp. rewrite H.
    change (-1 <? 0) with true. cbv iota. unfold len. lia.
  - intros H. apply find_found in H. fold e in H.
    destruct (find_range page_text END_STRING) as [F|F]; fold e in F; [lia|].
    unfold clamp. destruct (e <? 0) eqn:Ee; [lia|].
    pose proof (len_nonneg END_STRING). lia.
Qed.

Lemma locate_item_without_anchor_witness :
  ~ occurs START_STRING page_without_start
  /\ exists lo hi : nat,
       locate_item page_without_start
       = strip (firstn (hi - lo) (skipn lo page_without_start))
       /\ lo = 33%nat /\ Z.of_nat hi = find page_without_start END_STRING.
Proof.
  assert (S : ~ occurs START_STRING page_without_start)
    by (apply find_absent; reflexivity).
  assert (E : occurs END_STRING page_without_start)
    by (apply find_found; vm_compute; discriminate).
  split; [exact S|].
  destruct (@locate_item_without_anchor page_without_start (or_introl S))
    as (lo & hi & H & Hlo & _ & _ & Hhi).
  exists lo, hi. split; [exact H|]. split; [exact (Hlo S) | exact (Hhi E)].
Defined.

(** * Properties of the rest of the script *)

(** ** More on the built-in operations *)

Lemma dropwhile_split {A} (p : A -> bool) (l : list A) :
  exists w, l = w ++ dropwhile p l /\ forallb p w = true.
Proof.
  induction l as [|x l (w & Hw & Hp)]; simpl.
  - now exists [].
  - destruct (p x) eqn:E.
    + exists (x :: w). simpl. rewrite E, Hp. split; [congruence | reflexivity].
    + now exists [].
Qed.

Lemma dropwhile_nil_iff {A} (p : A -> bool) (l : list A) :
  dropwhile p l = [] <-> forallb p l = true.
Proof.
  induction l as [|x l IH]; simpl; [tauto|].
  destruct (p x); simpl; [exact IH | split; discriminate].
Qed.

Lemma dropwhile_first {A} (p : A -> bool) (l : list A) (x : A) (u : list A) :
  dropwhile p l = x :: u -> p x = false.
Proof.
  induction l as [|y l IH]; simpl; [discriminate|].
  destruct (p y) eqn:E; [exact IH | congruence].
Qed.

Lemma dropwhile_app {A} (p : A -> bool) (l1 l2 : list A) :
  dropwhile p (l1 ++ l2)
  = if forallb p l1 then dropwhile p l2 else dropwhile p l1 ++ l2.
Proof.
  induction l1 as [|x l1 IH]; simpl; [reflexivity|].
  destruct (p x); simpl; [exact IH | reflexivity].
Qed.

Lemma forallb_rev {A} (p : A -> bool) (l : list A) :
  forallb p (rev l) = forallb p l.
Proof.
  induction l as [|x l IH]; simpl; [reflexivity|].
  rewrite forallb_app, IH. simpl. rewrite andb_true_r. apply andb_comm.
Qed.

Lemma rstrip_split (t : str) :
  exists w, t = rstrip t ++ w /\ forallb isspace w = true.
Proof.
  unfold rstrip. destruct (dropwhile_split isspace (rev t)) as (w & Hw & Hp).
  exists (rev w). split; [|now rewrite forallb_rev].
  rewrite <- rev_app_distr, <- Hw. symmetry. apply rev_involutive.
Qed.

Lemma strip_nil_iff (t : str) : strip t = [] <-> forallb isspace t = true.
Proof.
  unfold strip, lstrip.
  destruct (rstrip_split t) as (w & Hw & Hp).
  rewrite Hw at 2. rewrite forallb_app, Hp, andb_true_r.
  apply dropwhile_nil_iff.
Qed.

Lemma strip_first (t : str) (x : ascii) (u : str) :
  strip t = x :: u -> isspace x = false.
Proof. unfold strip, lstrip. apply dropwhile_first. Qed.

Lemma rstrip_app_keep (a b : str) (x : ascii) :
  isspace x = false -> rstrip (a ++ x :: b) = a ++ x :: rstrip b.
Proof.
  intros Hx. unfold rstrip.
  replace (rev (a ++ x :: b)) with (rev b ++ x :: rev a)
    by (rewrite rev_app_distr; simpl; now rewrite <- app_assoc).
  rewrite dropwhile_app. destruct (forallb isspace (rev b)) eqn:E.
  - rewrite dropwhile_head by exact Hx.
    apply dropwhile_nil_iff in E. rewrite E. simpl.
    now rewrite rev_involutive.
  - rewrite rev_app_distr. simpl. rewrite rev_involutive.
    now rewrite <- app_assoc.
Qed.

Lemma takewhile_app {A} (p : A -> bool) (l1 l2 : list A) :
  forallb p l1 = true -> takewhile p (l1 ++ l2) = l1 ++ takewhile p l2.
Proof.
  induction l1 as [|x l1 IH]; simpl; [reflexivity|].
  intros H. apply andb_prop in H as [Hx H]. now rewrite Hx, IH.
Qed.

Lemma takewhile_all {A} (p : A -> bool) (l : list A) :
  forallb p (takewhile p l) = true.
Proof.
  induction l as [|x l IH]; simpl; [reflexivity|].
  destruct (p x) eqn:E; simpl; [now rewrite E | reflexivity].
Qed.

Lemma takewhile_twice {A} (p q : A -> bool) (l : list A) :
  takewhile q (takewhile p l) = takewhile (fun x => p x && q x) l.
Proof.
  induction l as [|x l IH]; simpl; [reflexivity|].
  destruct (p x); simpl; [|reflexivity].
  destruct (q x); [now rewrite IH | reflexivity].
Qed.

(** The first piece of a split at one character. *)
Lemma split_go_char_first (c : ascii) (cur t : str) :
  exists pieces,
    split_go [c] 0 cur t
    = (rev cur
       ++ takewhile (fun x => negb (if ascii_dec x c then true else false)) t)
      :: pieces.
Proof.
  revert cur. induction t as [|x t IH]; intros cur.
  - exists []. simpl. now rewrite app_nil_r.
  - cbn [split_go takewhile]. rewrite startswith_char.
    destruct (ascii_dec c x) as [<-|Hne].
    + destruct (ascii_dec c c); [|congruence]. simpl negb. cbv iota.
      rewrite app_nil_r. eexists. reflexivity.
    + destruct (ascii_dec x c); [congruence|]. simpl negb. cbv iota.
      destruct (IH (x :: cur)) as [pieces ->]. exists pieces.
      simpl. now rewrite <- app_assoc.
Qed.

Lemma index_0_split_char (c : ascii) (t : str) :
  index (split t [c]) 0
  = Ok (takewhile (fun x => negb (if ascii_dec x c then true else false)) t).
Proof.
  unfold split. destruct (split_go_char_first c [] t) as [pieces ->].
  now rewrite index_0.
Qed.

(** ** Reading the value after a label (get_next_item) *)

Lemma get_next_item_eq (text word_before : str) :
  get_next_item text word_before
  = Ok (takewhile in_token
          (strip (slice text
                    (Some (find text word_before + len word_before)) None))).
Proof.
  unfold get_next_item. change (txt " ") with [" "%char].
  rewrite index_0_split_char. cbn [rbind]. rewrite index_0_split_char.
  now rewrite takewhile_twice.
Qed.

(** X1.  [get_next_item] raises nothing, whatever the text and the label:
    it returns the longest run without space and newline at the start of
    the stripped text from the end of the label's first occurrence on, so
    what it returns holds neither a space nor a newline. *)
Theorem get_next_item_token (text word_before : str) :
  exists token,
    get_next_item text word_before = Ok token
    /\ token = takewhile in_token
                 (strip (slice text
                    (Some (find text word_before + len word_before)) None))
    /\ Forall (fun c => c <> " "%char /\ c <> LF) token.
Proof.
  eexists. split; [apply get_next_item_eq|]. split; [reflexivity|].
  apply Forall_forall. intros c Hc.
  pose proof (takewhile_all in_token
    (strip (slice text (Some (find text word_before + len word_before)) None)))
    as H.
  rewrite forallb_forall in H. apply H in Hc. unfold in_token in Hc.
  apply andb_prop in Hc as [H1 H2].
  destruct (ascii_dec c " "); [discriminate|].
  destruct (ascii_dec c LF); [discriminate|]. now split.
Qed.

(** X2.  [get_next_item] returns the empty string exactly when nothing but
    white space follows the label. *)
Theorem get_next_item_empty (text word_before : str) :
  get_next_item text word_before = Ok []
  <-> forallb isspace
        (slice text (Some (find text word_before + len word_before)) None)
      = true.
Proof.
  rewrite get_next_item_eq, <- strip_nil_iff.
  set (rest := strip _). split.
  - intros H. injection H as H. destruct rest as [|x u] eqn:E; [reflexivity|].
    apply strip_first in E. simpl in H. unfold in_token in H.
    destruct (ascii_dec x " ") as [->|_]; [discriminate E|].
    destruct (ascii_dec x LF) as [->|_]; [discriminate E | discriminate H].
  - intros ->. reflexivity.
Qed.

(** X3.  When the first occurrence of the label is followed by white
    space, then by a word without white space, and the word is followed by
    a space, by a newline or by the end of the text, [get_next_item]
    returns that word. *)
Theorem get_next_item_value (pre word_before gap token post : str) :
  find (pre ++ word_before ++ gap ++ token ++ post) word_before
  = len pre ->
  forallb isspace gap = true ->
  token <> [] ->
  forallb (fun c => negb (isspace c)) token = true ->
  post = [] \/ (exists p, post = " "%char :: p) \/ (exists p, post = LF :: p) ->
  get_next_item (pre ++ word_before ++ gap ++ token ++ post) word_before
  = Ok token.
Proof.
  intros Hfind Hgap Hne Htok Hpost.
  rewrite get_next_item_eq, Hfind. f_equal.
  rewrite slice_from by (unfold len; lia).
  replace (Z.to_nat (len pre + len word_before))
    with (length (pre ++ word_before))
    by (rewrite length_app; unfold len; lia).
  rewrite app_assoc, skipn_app, skipn_all, Nat.sub_diag. cbn [app skipn].
  destruct (@exists_last _ token Hne) as (t' & x & ->).
  assert (Hx : isspace x = false).
  { rewrite forallb_app in Htok. apply andb_prop in Htok as [_ Htok].
    simpl in Htok. rewrite andb_true_r in Htok. now apply negb_true_iff. }
  unfold strip.
  replace (gap ++ (t' ++ [x]) ++ post) with ((gap ++ t') ++ x :: post)
    by (now rewrite <- !app_assoc).
  rewrite rstrip_app_keep by exact Hx.
  replace ((gap ++ t') ++ x :: rstrip post)
    with (gap ++ (t' ++ [x]) ++ rstrip post)
    by (now rewrite <- !app_assoc).
  unfold lstrip. rewrite dropwhile_app, Hgap.
  assert (Hd : dropwhile isspace ((t' ++ [x]) ++ rstrip post)
               = (t' ++ [x]) ++ rstrip post).
  { destruct t' as [|y t'']; simpl.
    - now rewrite Hx.
    - simpl in Htok. apply andb_prop in Htok as [Hy _].
      apply negb_true_iff in Hy. now rewrite Hy. }
  rewrite Hd. rewrite takewhile_app.
  - assert (Hp : takewhile in_token (rstrip post) = []).
    { destruct (rstrip_split post) as (w & Hw & _).
      destruct (rstrip post) as [|c r]; [reflexivity|].
      destruct Hpost as [->|[[p ->]|[p ->]]];
        [discriminate Hw | |]; injection Hw as <- _; reflexivity. }
    rewrite Hp. apply app_nil_r.
  - rewrite forallb_forall in *. intros c Hc. apply Htok in Hc.
    apply negb_true_iff in Hc. unfold in_token.
    destruct (ascii_dec c " ") as [->|_]; [discriminate Hc|].
    destruct (ascii_dec c LF) as [->|_]; [discriminate Hc | reflexivity].
Qed.

Lemma get_next_item_value_witness :
  find (txt "Invoice   " ++ txt "Service Request Number"
        ++ txt "             " ++ txt "531363" ++ txt " Page 1")
       (txt "Service Request Number")
  = 10
  /\ get_next_item
       (txt "Invoice   Service Request Number             531363 Page 1")
       (txt "Service Request Number")
     = Ok (txt "531363").
Proof.
  split; [reflexivity|].
  apply (@get_next_item_value (txt "Invoice   ")
           (txt "Service Request Number") (txt "             ")
           (txt "531363") (txt " Page 1")); try reflexivity.
  - discriminate.
  - right; left. now exists (txt "Page 1").
Defined.

(** X4.  When the label does not occur, [get_next_item] raises nothing
    either: it reads its value from the text without its first
    [len(word_before) - 1] characters. *)
Theorem get_next_item_without_label (text word_before : str) :
  ~ occurs word_before text ->
  get_next_item text word_before
  = Ok (takewhile in_token (strip (skipn (length word_before - 1) text))).
Proof.
  intros H. rewrite get_next_item_eq.
  assert (Hw : word_before <> []).
  { intros ->. apply H. now exists [], text. }
  apply find_absent in H. rewrite H.
  assert (0 < length word_before)%nat
    by (destruct word_before; [congruence | simpl; lia]).
  rewrite slice_from by (unfold len; lia).
  repeat f_equal. unfold len. lia.
Qed.

Lemma get_next_item_without_label_witness :
  ~ occurs (txt "BCB Homes") (txt "Sold to ACME Builders 03/14/2024")
  /\ get_next_item (txt "Sold to ACME Builders 03/14/2024") (txt "BCB Homes")
     = Ok (txt "ACME").
Proof.
  assert (H : ~ occurs (txt "BCB Homes") (txt "Sold to ACME Builders 03/14/2024"))
    by (apply find_absent; reflexivity).
  split; [exact H|].
  exact (@get_next_item_without_label _ _ H).
Defined.

(** ** The item block between its anchors (parse_pdf, lines 112-117) *)

Lemma slice_between {A} (l : list A) (a b : Z) :
  0 <= a -> 0 <= b ->
  slice l (Some a) (Some b)
  = firstn (Z.to_nat b - Z.to_nat a) (skipn (Z.to_nat a) l).
Proof.
  intros Ha Hb. unfold slice.
  assert (Hn : len l = Z.of_nat (length l)) by reflexivity.
  assert (Ca : clamp (len l) a = Z.min a (len l))
    by (unfold clamp; destruct (Z.ltb_spec a 0); lia).
  assert (Cb : clamp (len l) b = Z.min b (len l))
    by (unfold clamp; destruct (Z.ltb_spec b 0); lia).
  rewrite Ca, Cb.
  destruct (Z.le_gt_cases a (len l)) as [Hal|Hal].
  - rewrite (Z.min_l a) by lia.
    destruct (Z.le_gt_cases b (len l)) as [Hbl|Hbl].
    + rewrite (Z.min_l b) by lia. f_equal. lia.
    + rewrite (Z.min_r b) by lia.
      rewrite !firstn_all2; trivial; rewrite length_skipn; lia.
  - rewrite (Z.min_r a) by lia.
    rewrite !skipn_all2 by lia. now rewrite !firstn_nil.
Qed.

(** X5.  When the first occurrence of the START anchor is followed by
    [mid] and then by the first occurrence of the END anchor, the item
    block is [mid] without the white space around it. *)
Theorem locate_item_between (pre mid post : str) :
  find (pre ++ START_STRING ++ mid ++ END_STRING ++ post) START_STRING
  = len pre ->
  find (pre ++ START_STRING ++ mid ++ END_STRING ++ post) END_STRING
  = len pre + len START_STRING + len mid ->
  locate_item (pre ++ START_STRING ++ mid ++ END_STRING ++ post) = strip mid.
Proof.
  intros Hs He. unfold locate_item. rewrite Hs, He. f_equal.
  rewrite slice_between by (unfold len; lia).
  replace (Z.to_nat (len pre + len START_STRING))
    with (length (pre ++ START_STRING))
    by (rewrite length_app; unfold len; lia).
  replace (Z.to_nat (len pre + len START_STRING + len mid)
           - length (pre ++ START_STRING))%nat
    with (length mid) by (rewrite length_app; unfold len; lia).
  rewrite (app_assoc pre), skipn_app, skipn_all, Nat.sub_diag.
  cbn [app skipn]. rewrite firstn_app, firstn_all, Nat.sub_diag.
  cbn [firstn]. apply app_nil_r.
Qed.

Lemma locate_item_between_witness :
  find laptop_page START_STRING = 54
  /\ find laptop_page END_STRING = 172
  /\ locate_item laptop_page
     = txt "MN-100: Latitude 5540, Dell Laptop  2  $500.00  $1,000.00"
       ++ [LF] ++ txt "Serial Numbers: SN1, SN2".
Proof.
  split; [reflexivity|]. split; [reflexivity|].
  exact (@locate_item_between
           (txt "BCB Homes  03/14/2024" ++ [LF]
            ++ txt "Service Request Number   531363" ++ [LF])
           ([LF]
            ++ txt "MN-100: Latitude 5540, Dell Laptop  2  $500.00  $1,000.00"
            ++ [LF] ++ txt "Serial Numbers: SN1, SN2" ++ [LF])
           (txt "  $1,000.00") eq_refl eq_refl).
Defined.

Lemma parse_pdf_item_error (page_text : str) (e : exn) (w : World) :
  extract_fields (locate_item page_text) = Raise e ->
  parse_pdf page_text w = (Raise e, w).
Proof. intros H. unfold parse_pdf, bind, lift. now rewrite H. Qed.

(** X6.  The END anchor is searched from the start of the page.  When its
    first occurrence does not lie behind the place where the START anchor
    ends (or would end, index 33, when it is missing), the item block is
    empty and [parse_pdf] raises [IndexError] before it prints or reads
    anything. *)
Theorem parse_pdf_end_before_start (page_text : str) (w : World) :
  0 <= find page_text END_STRING
    <= find page_text START_STRING + len START_STRING ->
  locate_item page_text = []
  /\ parse_pdf page_text w = (Raise IndexError, w).
Proof.
  intros H.
  assert (E : locate_item page_text = []).
  { unfold locate_item. rewrite slice_between by lia.
    replace (Z.to_nat (find page_text END_STRING)
             - Z.to_nat (find page_text START_STRING + len START_STRING))%nat
      with 0%nat by lia.
    reflexivity. }
  split; [exact E|]. apply parse_pdf_item_error. now rewrite E.
Qed.

Lemma parse_pdf_end_before_start_witness :
  find (txt "Total due on receipt" ++ laptop_page) END_STRING = 0
  /\ parse_pdf (txt "Total due on receipt" ++ laptop_page)
       {| stdin := [txt "tablet"]; stdout := [] |}
     = (Raise IndexError, {| stdin := [txt "tablet"]; stdout := [] |}).
Proof.
  split; [reflexivity|].
  apply (@parse_pdf_end_before_start (txt "Total due on receipt" ++ laptop_page)).
  vm_compute. split; discriminate.
Defined.

(** A separator that does not occur leaves one piece. *)
Lemma split_go_absent (sep cur t : str) :
  ~ occurs sep t -> split_go sep 0 cur t = [rev cur ++ t].
Proof.
  revert cur. induction t as [|c t IH]; intros cur H.
  - simpl. now rewrite app_nil_r.
  - cbn [split_go]. destruct (startswith sep (c :: t)) eqn:E.
    + exfalso. apply H. apply startswith_iff in E as [r Hr].
      now exists [], r.
    + rewrite IH.
      * simpl. now rewrite <- app_assoc.
      * intros (pre & post & Hp). apply H.
        exists (c :: pre), post. now rewrite Hp.
Qed.

(** X7.  An item block without a colon followed by a space has no second
    part: [parse_pdf] raises [IndexError] before it prints or reads
    anything. *)
Theorem parse_pdf_item_without_colon (page_text : str) (w : World) :
  ~ occurs (txt ": ") (locate_item page_text) ->
  extract_fields (locate_item page_text) = Raise IndexError
  /\ parse_pdf page_text w = (Raise IndexError, w).
Proof.
  intros H.
  assert (E : extract_fields (locate_item page_text) = Raise IndexError).
  { unfold extract_fields, split. rewrite (split_go_absent [] H).
    reflexivity. }
  split; [exact E | now apply parse_pdf_item_error].
Qed.

Lemma parse_pdf_item_without_colon_witness :
  ~ occurs (txt ": ")
      (locate_item (txt "Billable  Products & Other Charges MN-100 2 Total"))
  /\ parse_pdf (txt "Billable  Products & Other Charges MN-100 2 Total")
       {| stdin := []; stdout := [] |}
     = (Raise IndexError, {| stdin := []; stdout := [] |}).
Proof.
  assert (H : ~ occurs (txt ": ")
      (locate_item (txt "Billable  Products & Other Charges MN-100 2 Total")))
    by (apply find_absent; reflexivity).
  split; [exact H|].
  exact (proj2 (@parse_pdf_item_without_colon _ _ H)).
Defined.

(** ** What a parsed asset always satisfies (parse_pdf) *)

Lemma split_go_char_free (c : ascii) (cur t : str) :
  Forall (fun x => x <> c) cur ->
  Forall (Forall (fun x => x <> c)) (split_go [c] 0 cur t).
Proof.
  revert cur. induction t as [|x t IH]; intros cur Hcur.
  - simpl. constructor; [now apply Forall_rev | constructor].
  - cbn [split_go]. rewrite startswith_char.
    destruct (ascii_dec c x) as [<-|Hne].
    + constructor; [now apply Forall_rev|]. simpl. apply IH. constructor.
    + apply IH. constructor; [congruence | exact Hcur].
Qed.

Lemma take_price_inv (l : list str) (p : str) (l' : list str) :
  take_price l = Ok (p, l') -> exists q, p = clean_price q.
Proof.
  unfold take_price.
  destruct (pop l 1) as [[x l1]|]; [|discriminate]. cbn [rbind].
  destruct (pop l1 1) as [[y l2]|]; [|discriminate]. cbn [rbind].
  destruct (pop l2 1) as [[z l3]|]; [|discriminate]. cbn [rbind].
  intros H. injection H as <- _. now exists y.
Qed.

Lemma extract_fields_inv (item : str) (f : Fields) :
  extract_fields item = Ok f ->
  exists q l last,
    f_price f = clean_price q
    /\ f_name f = replace (join (txt " ") l) (txt ",") []
    /\ f_serial_nos f = map strip (split last (txt ",")).
Proof.
  unfold extract_fields.
  destruct (index (split item (txt ": ")) 0) as [m|]; [|discriminate].
  cbn [rbind].
  destruct (index (split item (txt ": ")) 1) as [info|]; [|discriminate].
  cbn [rbind].
  destruct (reduce_add _) as [toks|]; [|discriminate]. cbn [rbind].
  destruct (take_price toks) as [[p l]|] eqn:T; [|discriminate]. cbn [rbind].
  destruct (index l 0) as [h|]; [|discriminate]. cbn [rbind].
  destruct (index (split h (txt ", ")) 0) as [mo|]; [|discriminate].
  cbn [rbind].
  destruct (index (split item (txt ": ")) (-1)) as [last|]; [|discriminate].
  cbn [rbind]. intros H. injection H as <-. cbn.
  destruct (take_price_inv _ T) as [q ->]. now exists q, l, last.
Qed.

Lemma reformat_date_cases (d : str) :
  ((length d < 6)%nat -> reformat_date d = Raise IndexError)
  /\ ((6 <= length d)%nat ->
      exists r, reformat_date d = Ok r
                /\ length r = length d
                /\ Forall (fun c => c <> "/"%char) r).
Proof.
  unfold reformat_date.
  change (txt "/") with ["/"%char]. change (txt "-") with ["-"%char].
  rewrite replace_char_char.
  set (m := map (fun x => if ascii_dec "/"%char x then "-"%char else x) d).
  assert (Hl : length m = length d) by apply length_map.
  assert (Hm : Forall (fun c => c <> "/"%char) m).
  { apply Forall_forall. intros c Hc. apply in_map_iff in Hc as (x & <- & _).
    destruct (ascii_dec "/" x); [discriminate | congruence]. }
  rewrite index_nonneg by lia. change (Z.to_nat 5) with 5%nat.
  destruct (nth_error m 5) as [x|] eqn:N; cbn [rbind]; split.
  - intros H. assert (5 < length m)%nat by (apply nth_error_Some; congruence).
    lia.
  - intros _.
    assert (L : (5 < length m)%nat) by (apply nth_error_Some; congruence).
    eexists. split; [reflexivity|].
    rewrite slice_from, slice_to by lia.
    change (Z.to_nat 6) with 6%nat. change (Z.to_nat 5) with 5%nat.
    split.
    + rewrite !length_app, length_skipn, length_firstn. cbn [length]. lia.
    + pose proof Hm as H6. rewrite <- (firstn_skipn 6 m) in H6.
      apply Forall_app in H6 as [_ H6].
      pose proof Hm as H5. rewrite <- (firstn_skipn 5 m) in H5.
      apply Forall_app in H5 as [H5 _].
      repeat (apply Forall_app; split); trivial.
      constructor; [|constructor].
      rewrite Forall_forall in Hm. apply Hm. eapply nth_error_In, N.
  - reflexivity.
  - intros H. apply nth_error_None in N. lia.
Qed.

(** X9.  [reformat_date] raises [IndexError] exactly for a date of fewer
    than six characters, and raises nothing else; what it returns has the
    length of the date and no slash. *)
Theorem reformat_date_edge (d : str) :
  (reformat_date d = Raise IndexError <-> (length d < 6)%nat)
  /\ (forall e, reformat_date d = Raise e -> e = IndexError)
  /\ (forall r, reformat_date d = Ok r ->
        length r = length d /\ Forall (fun c => c <> "/"%char) r).
Proof.
  destruct (reformat_date_cases d) as [Hshort Hlong].
  destruct (Nat.lt_ge_cases (length d) 6) as [H|H].
  - rewrite (Hshort H). split; [tauto|]. split.
    + intros e E. now injection E.
    + discriminate.
  - destruct (Hlong H) as (r & -> & Hl & Hf). split; [|split].
    + split; [discriminate | lia].
    + discriminate.
    + intros r' E. injection E as <-. now split.
Qed.

Lemma parse_pdf_inv (page_text : str) (w w' : World) (a : Asset) :
  parse_pdf page_text w = (Ok a, w') ->
  exists f d0 d o c,
    extract_fields (locate_item page_text) = Ok f
    /\ get_next_item page_text (txt "BCB Homes") = Ok d0
    /\ reformat_date d0 = Ok d
    /\ get_next_item page_text (txt "Service Request Number") = Ok o
    /\ get_category (f_model_no f) (f_model f) (f_name f) w = (Ok c, w')
    /\ a = Asset_init (f_model_no f) (f_name f) (f_model f) (f_price f)
                      (f_serial_nos f) d o c.
Proof.
  unfold parse_pdf, bind, lift, ret.
  destruct (extract_fields (locate_item page_text)) as [f|] eqn:Ef;
    [|discriminate].
  destruct (get_next_item page_text (txt "BCB Homes")) as [d0|] eqn:Ed0;
    [|discriminate].
  cbn [rbind]. destruct (reformat_date d0) as [d|] eqn:Ed; [|discriminate].
  destruct (get_next_item page_text (txt "Service Request Number"))
    as [o|] eqn:Eo; [|discriminate].
  destruct (get_category (f_model_no f) (f_model f) (f_name f) w)
    as [[c|e] w1] eqn:Ec; [|discriminate].
  intros H. injection H as <- <-. exists f, d0, d, o, c. repeat split.
  - exact Ed.
  - exact Ec.
Qed.

(** X8.  Every asset [parse_pdf] returns has at least one serial number,
    each without surrounding white space and without comma; a price
    without comma, dollar sign and surrounding white space; a name without
    comma; a date of at least six characters without slash, which is also
    the last audit date; an order number without space and newline; the
    location Naples Office and requestable true. *)
Theorem parse_pdf_asset_invariants (page_text : str) (w w' : World) (a : Asset) :
  parse_pdf page_text w = (Ok a, w') ->
  serial_nos a <> []
  /\ Forall (fun sn => strip sn = sn /\ Forall (fun c => c <> ","%char) sn)
            (serial_nos a)
  /\ Forall price_char (price a) /\ strip (price a) = price a
  /\ Forall (fun c => c <> ","%char) (name a)
  /\ (6 <= length (date a))%nat /\ Forall (fun c => c <> "/"%char) (date a)
  /\ last_audit_date a = date a
  /\ Forall (fun c => c <> " "%char /\ c <> LF) (order_no a)
  /\ location a = txt "Naples Office" /\ requestable a = txt "true".
Proof.
  intros H.
  apply parse_pdf_inv in H as (f & d0 & d & o & c & Hf & _ & Hd & Ho & _ & ->).
  apply extract_fields_inv in Hf as (q & l & last & Hp & Hn & Hs).
  cbn [Asset_init serial_nos price name date last_audit_date order_no
       location requestable].
  rewrite Hp, Hn, Hs. change (txt ",") with [","%char].
  split; [|split; [|split; [|split; [|split; [|split; [|split; [|split;
    [|split; [|split]]]]]]]]]; try reflexivity.
  - pose proof (@split_go_nonempty [","%char] 0 [] last) as Hne.
    unfold split. destruct (split_go _ 0 [] last); [congruence | discriminate].
  - apply Forall_forall. intros sn Hsn.
    apply in_map_iff in Hsn as (piece & <- & Hpiece). split.
    + apply strip_idem.
    + apply strip_Forall.
      pose proof (@split_go_char_free ","%char [] last (Forall_nil _)) as Hfree.
      rewrite Forall_forall in Hfree. now apply Hfree.
  - apply clean_price_chars.
  - unfold clean_price. apply strip_idem.
  - apply replace_char_del_Forall.
  - destruct (reformat_date_cases d0) as [Hshort Hlong].
    destruct (Nat.lt_ge_cases (length d0) 6) as [L|L].
    + rewrite (Hshort L) in Hd. discriminate.
    + destruct (Hlong L) as (r & E & Hl & _). rewrite E in Hd.
      injection Hd as <-. lia.
  - destruct (reformat_date_cases d0) as [Hshort Hlong].
    destruct (Nat.lt_ge_cases (length d0) 6) as [L|L].
    + rewrite (Hshort L) in Hd. discriminate.
    + destruct (Hlong L) as (r & E & _ & Hr). rewrite E in Hd.
      now injection Hd as <-.
  - rewrite get_next_item_eq in Ho. injection Ho as <-.
    apply Forall_forall. intros x Hx.
    pose proof (takewhile_all in_token
      (strip (slice page_text
         (Some (find page_text (txt "Service Request Number")
                + len (txt "Service Request Number"))) None))) as T.
    rewrite forallb_forall in T. apply T in Hx. unfold in_token in Hx.
    apply andb_prop in Hx as [H1 H2].
    destruct (ascii_dec x " "); [discriminate|].
    destruct (ascii_dec x LF); [discriminate|]. now split.
Qed.

Lemma parse_pdf_asset_invariants_witness :
  exists a w',
    parse_pdf laptop_page {| stdin := [txt "tablet"]; stdout := [] |}
    = (Ok a, w')
    /\ serial_nos a <> []
    /\ strip (price a) = price a
    /\ last_audit_date a = date a.
Proof.
  destruct (parse_pdf laptop_page {| stdin := [txt "tablet"]; stdout := [] |})
    as [[a|e] w'] eqn:E; [|vm_compute in E; discriminate E].
  exists a, w'. split; [reflexivity|].
  destruct (parse_pdf_asset_invariants _ _ E)
    as (H1 & _ & _ & H2 & _ & _ & _ & H3 & _).
  now split; [|split].
Defined.



(** ** File names (check_file_types) *)

Lemma str_eqb_eq (a b : str) : str_eqb a b = true <-> a = b.
Proof.
  unfold str_eqb. destruct (list_eq_dec ascii_dec a b); split;
    congruence.
Qed.

Lemma slice_last4 {A} (l : list A) :
  slice l (Some (-4)) None = skipn (length l - 4) l.
Proof.
  unfold slice, clamp. change (-4 <? 0) with true. cbv iota.
  replace (Z.to_nat (Z.max 0 (-4 + len l))) with (length l - 4)%nat
    by (unfold len; lia).
  apply firstn_all2. rewrite length_skipn. unfold len. lia.
Qed.

Lemma pdf_suffix_iff (name : str) :
  pdf_suffix name = true <-> ends_with_pdf name.
Proof.
  unfold pdf_suffix, ends_with_pdf. rewrite str_eqb_eq, slice_last4. split.
  - intros H. exists (firstn (length name - 4) name).
    rewrite <- H. symmetry. apply firstn_skipn.
  - intros [stem ->]. rewrite length_app.
    change (length (txt ".pdf")) with 4%nat.
    replace (length stem + 4 - 4)%nat with (length stem) by lia.
    rewrite skipn_app, skipn_all, Nat.sub_diag. reflexivity.
Qed.

Lemma check_file_types_fold (l pdf invalid : list str) :
  fold_left
    (fun (acc : list str * list str) name =>
       let '(pdf_names, invalid_names) := acc in
       if str_eqb (slice name (Some (-4)) None) (txt ".pdf")
       then (pdf_names ++ [name], invalid_names)
       else (pdf_names, invalid_names ++ [name]))
    l (pdf, invalid)
  = (pdf ++ filter pdf_suffix l,
     invalid ++ filter (fun n => negb (pdf_suffix n)) l).
Proof.
  revert pdf invalid. induction l as [|n l IH]; intros pdf invalid.
  - simpl. now rewrite !app_nil_r.
  - cbn [fold_left filter]. fold (pdf_suffix n).
    destruct (pdf_suffix n); rewrite IH; cbn [negb];
      now rewrite <- app_assoc.
Qed.

Lemma check_file_types_filter (l : list str) :
  check_file_types l
  = (filter pdf_suffix l, filter (fun n => negb (pdf_suffix n)) l).
Proof. unfold check_file_types. now rewrite check_file_types_fold. Qed.

(** X11.  [check_file_types] sorts every name into exactly one of its two
    lists and keeps order and repeats: the first list holds the names that
    end in [.pdf] (lower case; the bare name [.pdf] included), the second
    all others. *)
Theorem check_file_types_partition (file_names : list str) :
  exists keep : str -> bool,
    (forall name, keep name = true <-> ends_with_pdf name)
    /\ fst (check_file_types file_names) = filter keep file_names
    /\ snd (check_file_types file_names)
       = filter (fun n => negb (keep n)) file_names
    /\ (length (fst (check_file_types file_names))
        + length (snd (check_file_types file_names))
        = length file_names)%nat.
Proof.
  exists pdf_suffix. rewrite check_file_types_filter. cbn [fst snd].
  split; [exact pdf_suffix_iff|]. split; [reflexivity|].
  split; [reflexivity|].
  induction file_names as [|n l IH]; [reflexivity|].
  cbn [filter]. destruct (pdf_suffix n); cbn [negb length]; lia.
Qed.

Example check_file_types_sample :
  check_file_types [txt "a.pdf"; txt "b.txt"; txt ".pdf"; txt "c.PDF"; [];
                    txt "a.pdf"]
  = ([txt "a.pdf"; txt ".pdf"; txt "a.pdf"], [txt "b.txt"; txt "c.PDF"; []]).
Proof. reflexivity. Qed.

(** ** Rendering without quoting (Asset.to_string) *)

Lemma split_go_char_length (c : ascii) (cur t : str) :
  length (split_go [c] 0 cur t) = S (count_occ ascii_dec t c).
Proof.
  revert cur. induction t as [|x t IH]; intros cur; [reflexivity|].
  cbn [split_go count_occ]. rewrite startswith_char.
  destruct (ascii_dec c x) as [<-|Hne].
  - destruct (ascii_dec c c); [|congruence]. simpl. now rewrite IH.
  - destruct (ascii_dec x c); [congruence|]. apply IH.
Qed.

Lemma count_occ_join (c : ascii) (l : list str) :
  l <> [] ->
  count_occ ascii_dec (join [c] l) c
  = (length l - 1 + list_sum (map (fun v => count_occ ascii_dec v c) l))%nat.
Proof.
  induction l as [|x l IH]; [congruence | intros _].
  destruct l as [|y l].
  - simpl. lia.
  - change (join [c] (x :: y :: l)) with (x ++ c :: join [c] (y :: l)).
    rewrite count_occ_app. cbn [count_occ].
    destruct (ascii_dec c c); [|congruence].
    rewrite IH by discriminate. unfold list_sum.
    cbn [map fold_right length]. lia.
Qed.

Lemma rows_of_to_string (a : Asset) :
  one_line_values a ->
  rows_of (to_string a)
  = map (fun sn => join (txt ",") (columns a sn)) (serial_nos a).
Proof.
  intros H. unfold rows_of. rewrite to_string_concat, split_rows.
  - apply removelast_last.
  - apply Forall_forall. intros row Hrow.
    apply in_map_iff in Hrow as (sn & <- & Hsn).
    apply join_Forall; [repeat constructor; discriminate | now apply H].
Qed.

(** X12.  [to_string] neither quotes nor escapes: when no value holds a
    newline, the row of each serial number, split at its commas, has
    eleven fields and one more for every comma inside a value. *)
Theorem to_string_no_quoting (a : Asset) :
  one_line_values a ->
  map (fun row => length (split row (txt ","))) (rows_of (to_string a))
  = map (fun sn => (11 + commas (columns a sn))%nat) (serial_nos a).
Proof.
  intros H. rewrite (rows_of_to_string H), map_map. apply map_ext.
  intros sn. unfold split. change (txt ",") with [","%char].
  rewrite split_go_char_length, count_occ_join by discriminate.
  unfold commas. cbn [columns length]. lia.
Qed.

Lemma to_string_no_quoting_witness :
  one_line_values comma_asset
  /\ map (fun row => length (split row (txt ",")))
         (rows_of (to_string comma_asset))
     = [12%nat].
Proof.
  assert (H : one_line_values comma_asset).
  { intros sn [<-|[]]. repeat constructor; discriminate. }
  split; [exact H|]. exact (to_string_no_quoting H).
Defined.

(** X13.  [to_string] returns the empty text exactly for an asset without
    serial numbers; otherwise its text ends in a newline. *)
Theorem to_string_empty (a : Asset) :
  (to_string a = [] <-> serial_nos a = [])
  /\ (serial_nos a <> [] -> exists body, to_string a = body ++ [LF]).
Proof.
  rewrite to_string_concat. rewrite map_map.
  destruct (serial_nos a) as [|sn l] using rev_ind.
  - split; [split; reflexivity | congruence].
  - rewrite map_app, concat_app. cbn [map concat]. rewrite app_nil_r.
    split.
    + split; intros H.
      * apply app_eq_nil in H as [_ H]. apply app_eq_nil in H as [_ H].
        discriminate.
      * destruct l; discriminate H.
    + intros _. eexists. rewrite !app_assoc. reflexivity.
Qed.

(** ** Known categories found without asking (get_category) *)

(** X14.  Called with a name in which some known category occurs, case
    not told apart, [get_category] returns a known category that occurs
    in the name and leaves the console as it was: nothing is printed and no
    line is read. *)
Theorem get_category_known_name (model_no name model d : str) (w : World) :
  In d COMMON_CATEGORIES -> ci_occurs d name ->
  exists c,
    In c COMMON_CATEGORIES /\ ci_occurs c name
    /\ get_category model_no name model w = (Ok c, w).
Proof.
  intros Hd Hocc. unfold get_category.
  destruct (check_for_common_categories name) as [c|] eqn:E.
  - exists c. unfold check_for_common_categories in E.
    change (fold_left _ COMMON_CATEGORIES None)
      with (fold_left (fun found x => if matches name x then Some x else found)
                      COMMON_CATEGORIES None) in E.
    apply (fold_last_match (matches name)) in E
      as [[_ E]|(pre & c' & post & Hl & Hc & _ & E)]; [discriminate|].
    injection E as <-. split; [|split; [|reflexivity]].
    + rewrite Hl. apply in_elt.
    + now apply matches_iff.
  - exfalso. unfold check_for_common_categories in E.
    change (fold_left _ COMMON_CATEGORIES None)
      with (fold_left (fun found x => if matches name x then Some x else found)
                      COMMON_CATEGORIES None) in E.
    apply (fold_last_match (matches name)) in E
      as [[Hall _]|(pre & c' & post & _ & _ & _ & E)]; [|discriminate].
    rewrite Forall_forall in Hall. apply Hall in Hd.
    apply matches_iff in Hocc. congruence.
Qed.

Lemma get_category_known_name_witness :
  ci_occurs (txt "Router") (txt "Mesh ROUTER kit")
  /\ exists c,
       In c COMMON_CATEGORIES /\ ci_occurs c (txt "Mesh ROUTER kit")
       /\ get_category (txt "MN-7") (txt "Mesh ROUTER kit") (txt "Mesh")
            {| stdin := [txt "dock"]; stdout := [] |}
          = (Ok c, {| stdin := [txt "dock"]; stdout := [] |}).
Proof.
  assert (H : ci_occurs (txt "Router") (txt "Mesh ROUTER kit"))
    by (apply matches_iff; reflexivity).
  split; [exact H|].
  apply (@get_category_known_name (txt "MN-7") (txt "Mesh ROUTER kit")
           (txt "Mesh") (txt "Router")); [|exact H].
  simpl. tauto.
Defined.

(** ** Flags (check_for_flags) *)

Lemma range_1 {A} (x : A) (l : list A) :
  range 1 (len (x :: l)) = map Z.of_nat (seq 1 (length l)).
Proof.
  unfold range, len. cbn [length]. do 2 f_equal. lia.
Qed.

Lemma len_gt_1 {A} (x y : A) (l : list A) : (1 <? len (x :: y :: l)) = true.
Proof. apply Z.ltb_lt. unfold len. cbn [length]. lia. Qed.

Lemma index_nat {A} (l : list A) (k : nat) :
  index l (Z.of_nat k)
  = match nth_error l k with Some x => Ok x | None => Raise IndexError end.
Proof. rewrite index_nonneg by lia. now rewrite Nat2Z.id. Qed.

Lemma pop_nat {A} (l : list A) (k : nat) :
  pop l (Z.of_nat k)
  = match nth_error l k with
    | Some x => Ok (x, firstn k l ++ skipn (S k) l)
    | None => Raise IndexError
    end.
Proof. rewrite pop_nonneg by lia. now rewrite Nat2Z.id. Qed.

Lemma length_without {A} (l : list A) (k : nat) :
  (k < length l)%nat ->
  length (firstn k l ++ skipn (S k) l) = (length l - 1)%nat.
Proof. intros H. rewrite length_app, length_firstn, length_skipn. lia. Qed.

(** Once the list is shorter than the last index to come, the loop ends in
    [IndexError]. *)
Lemma flags_loop_overrun (m k : nat) (argv flags : list str) :
  (1 <= m)%nat -> (length argv < k + m)%nat ->
  flags_loop (map Z.of_nat (seq k m)) argv flags = Raise IndexError.
Proof.
  revert k argv flags. induction m as [|m IH]; intros k argv flags Hm Hl;
    [lia|].
  cbn [seq map flags_loop]. rewrite index_nat.
  destruct (nth_error argv k) as [arg|] eqn:N; [|reflexivity].
  assert (Hk : (k < length argv)%nat) by (apply nth_error_Some; congruence).
  cbn [rbind]. destruct arg as [|c arg]; [reflexivity|].
  rewrite index_0. cbn [rbind].
  destruct (ascii_dec c "-").
  - rewrite pop_nat, N. cbn [rbind].
    apply IH; [lia|]. rewrite length_without by exact Hk. lia.
  - apply IH; lia.
Qed.

Lemma nth_error_middle {A} (front : list A) (a : A) (post : list A) :
  nth_error (front ++ a :: post) (length front) = Some a.
Proof.
  rewrite nth_error_app2 by lia. now rewrite Nat.sub_diag.
Qed.

Lemma flags_loop_misplaced (pre front : list str) (a : str)
    (post flags : list str) :
  a = [] \/ (dashed a = true /\ post <> []) ->
  flags_loop
    (map Z.of_nat (seq (length front) (length pre + S (length post))))
    (front ++ pre ++ a :: post) flags
  = Raise IndexError.
Proof.
  revert front flags. induction pre as [|b pre IH]; intros front flags H.
  - cbn [app length Nat.add seq map flags_loop].
    rewrite index_nat, nth_error_middle. cbn [rbind].
    destruct H as [->|[Hd Hp]]; [reflexivity|].
    destruct a as [|c a]; [discriminate Hd|]. rewrite index_0. cbn [rbind].
    simpl in Hd. destruct (ascii_dec c "-"); [|discriminate Hd].
    rewrite pop_nat, nth_error_middle. cbn [rbind].
    apply flags_loop_overrun.
    + destruct post; [congruence | simpl; lia].
    + rewrite length_without by (rewrite length_app; simpl; lia).
      rewrite length_app. simpl. lia.
  - cbn [app length Nat.add seq map flags_loop].
    rewrite index_nat, nth_error_middle. cbn [rbind].
    destruct b as [|c b]; [reflexivity|]. rewrite index_0. cbn [rbind].
    destruct (ascii_dec c "-").
    + rewrite pop_nat, nth_error_middle. cbn [rbind].
      apply flags_loop_overrun; [lia|].
      rewrite length_without by (rewrite length_app; simpl; lia).
      rewrite !length_app. simpl. rewrite length_app. simpl. lia.
    + specialize (IH (front ++ [c :: b]) flags H).
      rewrite length_app in IH. cbn [length] in IH.
      replace (length front + 1)%nat with (S (length front)) in IH by lia.
      rewrite <- app_assoc in IH. exact IH.
Qed.

Lemma flags_loop_clean (rest front flags tail : list str) :
  Forall (fun arg => undashed arg = true) rest ->
  tail = [] \/ (exists flag, tail = [flag] /\ dashed flag = true) ->
  flags_loop
    (map Z.of_nat (seq (length front) (length rest + length tail)))
    (front ++ rest ++ tail) flags
  = Ok (front ++ rest, flags ++ tail).
Proof.
  intros Hrest. revert front. induction Hrest as [|b rest Hb _ IH];
    intros front Htail.
  - cbn [app length Nat.add].
    destruct Htail as [->|(flag & -> & Hd)].
    + simpl. now rewrite !app_nil_r.
    + cbn [length seq map flags_loop].
      rewrite index_nat, nth_error_middle. cbn [rbind].
      destruct flag as [|c flag]; [discriminate Hd|].
      rewrite index_0. cbn [rbind]. simpl in Hd.
      destruct (ascii_dec c "-"); [|discriminate Hd].
      rewrite pop_nat, nth_error_middle. cbn [rbind flags_loop].
      rewrite firstn_app, firstn_all, Nat.sub_diag. cbn [firstn].
      rewrite skipn_all2 by (rewrite length_app; simpl; lia).
      now rewrite !app_nil_r.
  - cbn [app length Nat.add seq map flags_loop].
    rewrite index_nat, nth_error_middle. cbn [rbind].
    destruct b as [|c b]; [discriminate Hb|]. rewrite index_0. cbn [rbind].
    simpl in Hb. destruct (ascii_dec c "-"); [discriminate Hb|].
    specialize (IH (front ++ [c :: b]) Htail).
    rewrite length_app in IH. cbn [length] in IH.
    replace (length front + 1)%nat with (S (length front)) in IH by lia.
    rewrite <- !app_assoc in IH. exact IH.
Qed.

(** X15.  [check_for_flags] removes flags from [sys.argv] while it runs
    through the indices the list had at the start.  So whenever an
    argument other than the last starts with a hyphen, and whenever an
    argument is the empty string, it ends in [IndexError], with nothing
    printed. *)
Theorem check_for_flags_misplaced (prog : str) (pre : list str) (a : str)
    (post : list str) (w : World) :
  a = [] \/ (dashed a = true /\ post <> []) ->
  check_for_flags (prog :: pre ++ a :: post) w = (Raises IndexError, w).
Proof.
  intros H. unfold check_for_flags. rewrite range_1.
  replace (1 <? len (prog :: pre ++ a :: post)) with true.
  - rewrite length_app. cbn [length].
    pose proof (@flags_loop_misplaced pre [prog] a post [] H) as L.
    cbn [length app] in L. now rewrite L.
  - symmetry. apply Z.ltb_lt. unfold len. cbn [length].
    rewrite length_app. cbn [length]. lia.
Qed.

Lemma check_for_flags_misplaced_witness :
  dashed (txt "-h") = true
  /\ check_for_flags [txt "invoice_to_csv.py"; txt "-h"; txt "a.pdf"]
       {| stdin := []; stdout := [] |}
     = (Raises IndexError, {| stdin := []; stdout := [] |}).
Proof.
  split; [reflexivity|].
  apply (@check_for_flags_misplaced (txt "invoice_to_csv.py") [] (txt "-h")
           [txt "a.pdf"]).
  right. split; [reflexivity | discriminate].
Defined.

(** X16.  When every argument has a first character other than a hyphen,
    [check_for_flags] returns with [sys.argv] and the console as they
    were. *)
Theorem check_for_flags_clean (prog : str) (args : list str) (w : World) :
  Forall (fun arg => undashed arg = true) args ->
  check_for_flags (prog :: args) w = (Returns (prog :: args), w).
Proof.
  intros H. unfold check_for_flags. destruct args as [|arg args].
  - reflexivity.
  - rewrite len_gt_1, range_1.
    pose proof (@flags_loop_clean (arg :: args) [prog] [] [] H (or_introl eq_refl))
      as L.
    cbn [length app] in L. rewrite Nat.add_0_r, app_nil_r in L.
    cbn [length]. now rewrite L.
Qed.

Lemma check_for_flags_clean_witness :
  Forall (fun arg => undashed arg = true) [txt "a.pdf"; txt "b.pdf"]
  /\ check_for_flags [txt "invoice_to_csv.py"; txt "a.pdf"; txt "b.pdf"]
       {| stdin := []; stdout := [] |}
     = (Returns [txt "invoice_to_csv.py"; txt "a.pdf"; txt "b.pdf"],
        {| stdin := []; stdout := [] |}).
Proof.
  assert (H : Forall (fun arg => undashed arg = true) [txt "a.pdf"; txt "b.pdf"])
    by (repeat constructor).
  split; [exact H|]. exact (@check_for_flags_clean _ _ _ H).
Defined.

(** X17.  When only the last argument starts with a hyphen, it is taken
    off [sys.argv]: if it is [-h] or [--help] the usage line is printed and
    the script exits, and any other flag is dropped without a message. *)
Theorem check_for_flags_last (prog : str) (args : list str) (flag : str)
    (w : World) :
  Forall (fun arg => undashed arg = true) args ->
  dashed flag = true ->
  check_for_flags (prog :: args ++ [flag]) w
  = if is_help flag
    then (Exits, {| stdin := stdin w; stdout := stdout w ++ usage_line |})
    else (Returns (prog :: args), w).
Proof.
  intros H Hd. unfold check_for_flags. rewrite range_1.
  replace (1 <? len (prog :: args ++ [flag])) with true
    by (symmetry; apply Z.ltb_lt; unfold len; cbn [length];
        rewrite length_app; cbn [length]; lia).
  pose proof (@flags_loop_clean args [prog] [] [flag] H
                (or_intror (ex_intro _ flag (conj eq_refl Hd)))) as L.
  cbn [length app] in L. rewrite length_app. cbn [length] in *.
  rewrite L. cbn [help_loop]. fold (is_help flag).
  destruct (is_help flag); reflexivity.
Qed.

Lemma check_for_flags_last_witness :
  dashed (txt "--help") = true /\ dashed (txt "-v") = true
  /\ check_for_flags [txt "invoice_to_csv.py"; txt "a.pdf"; txt "--help"]
       {| stdin := []; stdout := [] |}
     = (Exits, {| stdin := []; stdout := usage_line |})
  /\ check_for_flags [txt "invoice_to_csv.py"; txt "a.pdf"; txt "-v"]
       {| stdin := []; stdout := [] |}
     = (Returns [txt "invoice_to_csv.py"; txt "a.pdf"],
        {| stdin := []; stdout := [] |}).
Proof.
  assert (H : Forall (fun arg => undashed arg = true) [txt "a.pdf"])
    by (repeat constructor).
  split; [reflexivity|]. split; [reflexivity|]. split.
  - exact (@check_for_flags_last (txt "invoice_to_csv.py") [txt "a.pdf"]
             (txt "--help") {| stdin := []; stdout := [] |} H eq_refl).
  - exact (@check_for_flags_last (txt "invoice_to_csv.py") [txt "a.pdf"]
             (txt "-v") {| stdin := []; stdout := [] |} H eq_refl).
Defined.

(** ** Names to process (get_pdf_names) *)

(** X18.  With arguments, [get_pdf_names] sorts the arguments after the
    program name and touches nothing.  Without, it prints its prompt, reads
    one line and sorts the pieces of the line between single spaces: the
    two lists together hold one name more than the line has spaces, so
    doubled, leading and trailing spaces and the empty line give empty
    names, which land among the invalid ones. *)
Theorem get_pdf_names_sources (prog arg line : str) (args rest : list str)
    (out : str) (w : World) :
  get_pdf_names (prog :: arg :: args) w
  = (Ok (check_file_types (arg :: args)), w)
  /\ get_pdf_names [prog] {| stdin := line :: rest; stdout := out |}
     = (Ok (check_file_types (split line (txt " "))),
        {| stdin := rest; stdout := out ++ names_prompt |})
  /\ (length (fst (check_file_types (split line (txt " "))))
      + length (snd (check_file_types (split line (txt " "))))
      = S (count_occ ascii_dec line " "%char))%nat
  /\ (In [] (split line (txt " ")) ->
      In [] (snd (check_file_types (split line (txt " ")))))
  /\ get_pdf_names [prog] {| stdin := []; stdout := out |}
     = (Raise EOFError, {| stdin := []; stdout := out ++ names_prompt |}).
Proof.
  split; [|split; [|split; [|split]]].
  - unfold get_pdf_names. rewrite len_gt_1.
    rewrite slice_from by lia. reflexivity.
  - reflexivity.
  - rewrite check_file_types_filter. cbn [fst snd].
    unfold split. change (txt " ") with [" "%char].
    rewrite <- (split_go_char_length " "%char [] line).
    induction (split_go [" "%char] 0 [] line) as [|n l IH]; [reflexivity|].
    cbn [filter]. destruct (pdf_suffix n); cbn [negb length]; lia.
  - intros H. rewrite check_file_types_filter. cbn [snd].
    apply filter_In. split; [exact H | reflexivity].
  - reflexivity.
Qed.

Example get_pdf_names_empty_line :
  get_pdf_names [txt "invoice_to_csv.py"] {| stdin := [[]]; stdout := [] |}
  = (Ok ([], [[]]), {| stdin := []; stdout := names_prompt |}).
Proof. reflexivity. Qed.

(** ** The batch (the loop of process_pdfs) *)

Section BatchFacts.

Variable read_first_page : str -> reading.

Lemma process_loop_app (l1 l2 : list str) (s : Session) :
  process_loop read_first_page (l1 ++ l2) s
  = match process_loop read_first_page l1 s with
    | (Ok _, s') => process_loop read_first_page l2 s'
    | (Raise e, s') => (Raise e, s')
    end.
Proof.
  revert s. induction l1 as [|n l1 IH]; intros s; [reflexivity|].
  cbn [app process_loop].
  destruct (process_one read_first_page n s) as [[u|e] s']; [apply IH|].
  reflexivity.
Qed.

(** X19.  A document that does not exist is reported and skipped: the
    documents after it are processed as if it had not been named, but for
    the two lines printed, and the CSV text is as the documents before it
    left it. *)
Theorem process_loop_skips_missing (before after : list str) (missing : str)
    (s s1 : Session) :
  read_first_page missing = FileNotFound ->
  process_loop read_first_page before s = (Ok tt, s1) ->
  process_loop read_first_page (before ++ missing :: after) s
  = process_loop read_first_page after
      {| console :=
           {| stdin := stdin (console s1);
              stdout := stdout (console s1)
                        ++ (txt "Processing " ++ missing ++ [LF])
                        ++ (missing ++ txt " not found." ++ [LF; LF]) |};
         csv := csv s1 |}.
Proof.
  intros Hm Hb. rewrite process_loop_app, Hb. cbn [process_loop].
  unfold process_one. rewrite Hm.
  unfold print2, write. cbn [snd stdin stdout].
  now rewrite <- !app_assoc.
Qed.

(** X20.  Only [FileNotFoundError] is caught.  When [parse_pdf] raises on
    the page of a document, the loop ends with that exception: the
    documents after it are not processed, and the CSV text keeps what the
    documents before it wrote. *)
Theorem process_loop_aborts (before after : list str) (pdf_name page_text : str)
    (s s1 : Session) (e : exn) (w' : World) :
  read_first_page pdf_name = Page page_text ->
  process_loop read_first_page before s = (Ok tt, s1) ->
  parse_pdf page_text
    {| stdin := stdin (console s1);
       stdout := stdout (console s1) ++ txt "Processing " ++ pdf_name ++ [LF] |}
  = (Raise e, w') ->
  process_loop read_first_page (before ++ pdf_name :: after) s
  = (Raise e, {| console := w'; csv := csv s1 |}).
Proof.
  intros Hr Hb Hp. rewrite process_loop_app, Hb. cbn [process_loop].
  unfold process_one. rewrite Hr.
  change (snd (print2 (txt "Processing") pdf_name (console s1)))
    with {| stdin := stdin (console s1);
            stdout := stdout (console s1)
                      ++ txt "Processing " ++ pdf_name ++ [LF] |}.
  now rewrite Hp.
Qed.

Lemma process_one_csv (pdf_name : str) (s s' : Session) (r : result unit) :
  process_one read_first_page pdf_name s = (r, s') ->
  csv s' = csv s
  \/ exists page_text w w' a,
       read_first_page pdf_name = Page page_text
       /\ parse_pdf page_text w = (Ok a, w')
       /\ csv s' = csv s ++ to_string a.
Proof.
  unfold process_one. destruct (read_first_page pdf_name) as [page_text|].
  - destruct (parse_pdf page_text _) as [[a|e] w'] eqn:P;
      intros H; injection H as _ <-; [right | now left].
    eexists. eexists. eexists. eexists.
    split; [reflexivity|]. split; [exact P | reflexivity].
  - intros H. injection H as _ <-. now left.
Qed.

(** X21.  The loop only appends to the CSV text, whole assets at a time:
    whatever happens, what was written stays, and what is added is the
    rendering of a sequence of assets that [parse_pdf] returned for pages
    of the documents named. *)
Theorem process_loop_appends (pdf_names : list str) (s s' : Session)
    (r : result unit) :
  process_loop read_first_page pdf_names s = (r, s') ->
  exists assets : list Asset,
    csv s' = csv s ++ concat (map to_string assets)
    /\ Forall (fun a => exists pdf_name page_text w w',
                 In pdf_name pdf_names
                 /\ read_first_page pdf_name = Page page_text
                 /\ parse_pdf page_text w = (Ok a, w')) assets.
Proof.
  revert s. induction pdf_names as [|n l IH]; intros s.
  - intros H. injection H as _ <-. exists []. simpl.
    now rewrite app_nil_r.
  - cbn [process_loop].
    destruct (process_one read_first_page n s) as [[u|e] s1] eqn:P.
    + intros H. apply IH in H as (assets & Hc & Ha).
      assert (Hl : Forall (fun a => exists pdf_name page_text w w',
                 In pdf_name (n :: l)
                 /\ read_first_page pdf_name = Page page_text
                 /\ parse_pdf page_text w = (Ok a, w')) assets).
      { eapply Forall_impl; [|exact Ha].
        intros a (m & t & w & w' & Hin & Hr & Hp).
        exists m, t, w, w'. split; [now right | now split]. }
      apply process_one_csv in P
        as [P|(t & w & w' & a & Hr & Hp & P)].
      * exists assets. split; [congruence | exact Hl].
      * exists (a :: assets). split.
        -- rewrite Hc, P. cbn [map concat]. now rewrite <- app_assoc.
        -- constructor; [|exact Hl].
           exists n, t, w, w'. split; [now left | now split].
    + intros H. injection H as _ <-.
      apply process_one_csv in P
        as [P|(t & w & w' & a & Hr & Hp & P)].
      * exists []. simpl. rewrite app_nil_r. split; [exact P | constructor].
      * exists [a]. split.
        -- rewrite P. simpl. now rewrite app_nil_r.
        -- constructor; [|constructor].
           exists n, t, w, w'. split; [now left | now split].
Qed.

End BatchFacts.

Lemma process_loop_skips_missing_witness :
  sample_disk (txt "c.pdf") = FileNotFound
  /\ exists w,
       process_loop sample_disk [txt "a.pdf"; txt "c.pdf"; txt "a.pdf"]
                    fresh_session
       = (Ok tt,
          {| console := w;
             csv := CSV_HEADER ++ to_string (laptop_asset (txt "Tablet"))
                    ++ to_string (laptop_asset (txt "Phone")) |}).
Proof.
  split; [reflexivity|].
  pose (s1 := snd (process_loop sample_disk [txt "a.pdf"] fresh_session)).
  assert (E : process_loop sample_disk [txt "a.pdf"] fresh_session
              = (Ok tt, s1)) by (vm_compute; reflexivity).
  eexists. eapply eq_trans.
  - exact (@process_loop_skips_missing sample_disk [txt "a.pdf"]
             [txt "a.pdf"] (txt "c.pdf") fresh_session s1 eq_refl E).
  - vm_compute. reflexivity.
Defined.

Lemma process_loop_aborts_witness :
  sample_disk (txt "b.pdf") = Page (txt "BCB Homes")
  /\ exists w,
       process_loop sample_disk [txt "a.pdf"; txt "b.pdf"; txt "a.pdf"]
                    fresh_session
       = (Raise IndexError,
          {| console := w;
             csv := CSV_HEADER ++ to_string (laptop_asset (txt "Tablet")) |}).
Proof.
  split; [reflexivity|].
  pose (s1 := snd (process_loop sample_disk [txt "a.pdf"] fresh_session)).
  assert (E : process_loop sample_disk [txt "a.pdf"] fresh_session
              = (Ok tt, s1)) by (vm_compute; reflexivity).
  eexists. eapply eq_trans.
  - eapply (@process_loop_aborts sample_disk [txt "a.pdf"] [txt "a.pdf"]
              (txt "b.pdf") (txt "BCB Homes") fresh_session s1 IndexError);
      [reflexivity | exact E | vm_compute; reflexivity].
  - vm_compute. reflexivity.
Defined.

Lemma process_loop_appends_witness :
  exists r s assets,
    process_loop sample_disk [txt "a.pdf"; txt "c.pdf"] fresh_session = (r, s)
    /\ csv s = CSV_HEADER ++ concat (map to_string assets).
Proof.
  destruct (process_loop sample_disk [txt "a.pdf"; txt "c.pdf"] fresh_session)
    as [r s] eqn:E.
  destruct (@process_loop_appends sample_disk _ _ _ _ E) as (assets & H & _).
  exists r, s, assets. split; [reflexivity | exact H].
Defined.
